(** * List prefix transformer (src/list-formatter.ts)

    A shallow embedding of the list formatter of the plugin: the five style
    functions [formatBulletList], [formatNumberedList],
    [formatAlphabeticalList], [formatRomanList] and [formatCheckboxList],
    the line processor [processLine] they share, and the regular
    expression [PREFIX_REGEX] that detects an existing list marker.

    A JavaScript string is a sequence of UTF-16 code units; it is modelled
    as a list of code units, each a number [N].  The regular expressions of
    the source are kept as syntax and run by a small backtracking matcher
    with the ECMAScript semantics of the constructs the source uses
    (greedy quantifiers, ordered alternation, capture groups, [^] and [$]
    without the multiline flag, [.] without the dotAll flag). *)

From Stdlib Require Import Ascii String.
From Stdlib Require Import NArith Arith Bool Lia List.
From Stdlib Require DecimalFacts DecimalNat.
Import ListNotations.

Local Open Scope list_scope.

(** ** Strings as lists of UTF-16 code units *)

Definition code := N.
Definition jsstring := list code.

(** A string literal of the source (all of them are ASCII). *)
Definition js (s : string) : jsstring :=
  map N_of_ascii (list_ascii_of_string s).

(** The line separator ['\n']. *)
Definition LF : code := 10%N.

(** ['x'.charCodeAt(i)]; only applied to one-character literals, at 0. *)
Definition charCodeAt (s : jsstring) (i : nat) : N := nth i s 0%N.

(** [String.fromCharCode(n)]: the code unit [n] modulo 2^16. *)
Definition fromCharCode (n : N) : jsstring := [(n mod 65536)%N].

(** Number-to-string of a non-negative integer: its decimal digits.
    (JavaScript switches to exponent notation only from 10^21 on, beyond
    any count of lines of a string.) *)
Fixpoint uint_codes (u : Decimal.uint) : jsstring :=
  match u with
  | Decimal.Nil => []
  | Decimal.D0 u => 48%N :: uint_codes u
  | Decimal.D1 u => 49%N :: uint_codes u
  | Decimal.D2 u => 50%N :: uint_codes u
  | Decimal.D3 u => 51%N :: uint_codes u
  | Decimal.D4 u => 52%N :: uint_codes u
  | Decimal.D5 u => 53%N :: uint_codes u
  | Decimal.D6 u => 54%N :: uint_codes u
  | Decimal.D7 u => 55%N :: uint_codes u
  | Decimal.D8 u => 56%N :: uint_codes u
  | Decimal.D9 u => 57%N :: uint_codes u
  end.

Definition toString (n : nat) : jsstring := uint_codes (Nat.to_uint n).

(** ** Character classes *)

Definition in_set (s : string) (c : code) : bool :=
  existsb (N.eqb c) (js s).

Definition in_range (lo hi : string) (c : code) : bool :=
  (charCodeAt (js lo) 0 <=? c)%N && (c <=? charCodeAt (js hi) 0)%N.

(** LineTerminator of ECMAScript: LF, CR, LS (U+2028), PS (U+2029). *)
Definition is_line_terminator (c : code) : bool :=
  existsb (N.eqb c) [10; 13; 8232; 8233]%N.

(** WhiteSpace or LineTerminator of ECMAScript: what [\s] matches and what
    [trim] strips.  TAB, LF, VT, FF, CR, SP, NBSP, U+1680, U+2000..U+200A,
    LS, PS, U+202F, U+205F, U+3000, U+FEFF. *)
Definition is_space (c : code) : bool :=
  existsb (N.eqb c)
    [9; 10; 11; 12; 13; 32; 160; 5760; 8232; 8233; 8239; 8287; 12288; 65279]%N
  || ((8192 <=? c)%N && (c <=? 8202)%N).

(** [\d] *)
Definition is_digit : code -> bool := in_range "0" "9".
(** [.] without the dotAll flag *)
Definition is_dot (c : code) : bool := negb (is_line_terminator c).
(** [[-*+]] *)
Definition is_bullet : code -> bool := in_set "-*+".
(** [[a-zA-Z]] *)
Definition is_letter (c : code) : bool := in_range "a" "z" c || in_range "A" "Z" c.
(** [[.)]] *)
Definition is_dot_or_paren : code -> bool := in_set ".)".
(** [[ivxlcdmIVXLCDM]] *)
Definition is_roman : code -> bool := in_set "ivxlcdmIVXLCDM".
(** [\.] *)
Definition is_period : code -> bool := in_set ".".

(** ** String operations of the source *)

Fixpoint trimStart (s : jsstring) : jsstring :=
  match s with
  | c :: s' => if is_space c then trimStart s' else s
  | [] => []
  end.

Definition trimEnd (s : jsstring) : jsstring := rev (trimStart (rev s)).

(** [s.trim()] *)
Definition trim (s : jsstring) : jsstring := trimEnd (trimStart s).

(** [s.substring(n)] for [0 <= n] *)
Definition substring (s : jsstring) (n : nat) : jsstring := skipn n s.

(** [s.split(sep)] for a separator of one code unit: never empty, the
    empty string gives one empty piece. *)
Fixpoint split (sep : code) (s : jsstring) : list jsstring :=
  match s with
  | [] => [[]]
  | c :: s' =>
      if (c =? sep)%N then [] :: split sep s'
      else match split sep s' with
           | l :: ls => (c :: l) :: ls
           | [] => [[c]]
           end
  end.

(** [a.join(sep)] *)
Fixpoint join (sep : jsstring) (a : list jsstring) : jsstring :=
  match a with
  | [] => []
  | l :: a' =>
      match a' with
      | [] => l
      | _ :: _ => l ++ sep ++ join sep a'
      end
  end.

(** [a.map(f)] for a callback that reads and updates a variable of its
    closure: the variable is threaded through the calls, in index order. *)
Fixpoint map_st {S A B : Type} (f : S -> A -> B * S) (s : S) (a : list A) : list B :=
  match a with
  | [] => []
  | x :: a' => let (y, s') := f s x in y :: map_st f s' a'
  end.

(** ** Regular expressions *)

Module Regex.

(** The constructs that occur in the source.  Quantifiers are only ever
    applied to a character class there. *)
Inductive regex : Type :=
| Chr (p : code -> bool)          (* one code unit of a class          *)
| Star (p : code -> bool)         (* [p*], greedy                      *)
| Seq (r1 r2 : regex)             (* [r1 r2]                           *)
| Alt (r1 r2 : regex)             (* [r1|r2], the left one first       *)
| Bol                             (* [^], no multiline flag            *)
| Eol                             (* [$], no multiline flag            *)
| Grp (i : nat) (r : regex).      (* the i-th capture group            *)

(** [p+] *)
Definition Plus (p : code -> bool) : regex := Seq (Chr p) (Star p).

(** Matcher state: index into the subject, what is left of it, and the
    captures made so far (the most recent first). *)
Record mstate : Type := MState {
  pos : nat;
  rest : jsstring;
  caps : list (nat * jsstring)
}.

Section Matcher.
Context {R : Type}.

(** [p*] from state [st]: the longest run first, then shorter ones. *)
Fixpoint star (p : code -> bool) (n : nat) (s : jsstring)
    (cs : list (nat * jsstring)) (k : mstate -> option R) : option R :=
  match s with
  | c :: s' =>
      if p c then
        match star p (S n) s' cs k with
        | Some x => Some x
        | None => k (MState n s cs)
        end
      else k (MState n s cs)
  | [] => k (MState n [] cs)
  end.

(** Backtracking matcher in continuation-passing style: [k] is the rest
    of the pattern; [None] makes the matcher try its next choice. *)
Fixpoint run (r : regex) (st : mstate) (k : mstate -> option R) : option R :=
  match r with
  | Chr p =>
      match rest st with
      | c :: s' => if p c then k (MState (S (pos st)) s' (caps st)) else None
      | [] => None
      end
  | Star p => star p (pos st) (rest st) (caps st) k
  | Seq r1 r2 => run r1 st (fun st' => run r2 st' k)
  | Alt r1 r2 =>
      match run r1 st k with
      | Some x => Some x
      | None => run r2 st k
      end
  | Bol => if Nat.eqb (pos st) 0 then k st else None
  | Eol => match rest st with [] => k st | _ :: _ => None end
  | Grp i r1 =>
      run r1 st (fun st' =>
        k (MState (pos st') (rest st')
             ((i, firstn (pos st' - pos st) (rest st)) :: caps st')))
  end.
End Matcher.

(** The match array: element 0 is the matched text, element [i] the text
    of the i-th group, [None] where JavaScript has [undefined]. *)
Record match_array : Type := MatchArray {
  matched : jsstring;
  captures : list (nat * jsstring)
}.

Fixpoint assoc (i : nat) (cs : list (nat * jsstring)) : option jsstring :=
  match cs with
  | [] => None
  | (j, v) :: cs' => if Nat.eqb i j then Some v else assoc i cs'
  end.

Definition at_index (m : match_array) (i : nat) : option jsstring :=
  match i with
  | O => Some (matched m)
  | S _ => assoc i (captures m)
  end.

(** One attempt, the match starting at index [i] of [s]. *)
Definition exec_at (r : regex) (s : jsstring) (i : nat) : option match_array :=
  let s' := skipn i s in
  run r (MState i s' [])
    (fun st => Some (MatchArray (firstn (pos st - i) s') (caps st))).

(** The start indices are tried from left to right: index [i], then the
    [more] indices after it. *)
Fixpoint exec_from (r : regex) (s : jsstring) (i more : nat) : option match_array :=
  match exec_at r s i with
  | Some m => Some m
  | None =>
      match more with
      | O => None
      | S more' => exec_from r s (S i) more'
      end
  end.

(** [s.match(r)] for [r] without the global flag: the first match, looked
    for from every index of [s], its end included. *)
Definition str_match (s : jsstring) (r : regex) : option match_array :=
  exec_from r s 0 (length s).

End Regex.
Import Regex.

(** A template-literal substitution [${m[i]}]: [undefined] prints as the
    word. *)
Definition subst (v : option jsstring) : jsstring :=
  match v with
  | Some s => s
  | None => js "undefined"
  end.

(** ** The source, line by line *)

(** [const ROMAN_NUMERALS_UPPER = ['I', 'II', ..., 'XX']] *)
Definition ROMAN_NUMERALS_UPPER : list jsstring :=
  map js ["I"; "II"; "III"; "IV"; "V"; "VI"; "VII"; "VIII"; "IX"; "X";
          "XI"; "XII"; "XIII"; "XIV"; "XV"; "XVI"; "XVII"; "XVIII"; "XIX";
          "XX"]%string.

(** [n.toLowerCase()], on the ASCII letters, the only ones of the table. *)
Definition toLowerCase (s : jsstring) : jsstring :=
  map (fun c => if in_range "A" "Z" c then (c + 32)%N else c) s.

(** [const ROMAN_NUMERALS_LOWER = ROMAN_NUMERALS_UPPER.map(n => n.toLowerCase())] *)
Definition ROMAN_NUMERALS_LOWER : list jsstring :=
  map toLowerCase ROMAN_NUMERALS_UPPER.

(** The four alternatives of the first group of [PREFIX_REGEX]. *)
(** [\s*[-*+]\s+] *)
Definition alt_bullet : regex :=
  Seq (Star is_space) (Seq (Chr is_bullet) (Plus is_space)).
(** [^\s*\d+\.\s+] *)
Definition alt_numeric : regex :=
  Seq Bol (Seq (Star is_space)
    (Seq (Plus is_digit) (Seq (Chr is_period) (Plus is_space)))).
(** [^\s*[a-zA-Z][.)]\s+] *)
Definition alt_alpha : regex :=
  Seq Bol (Seq (Star is_space)
    (Seq (Chr is_letter) (Seq (Chr is_dot_or_paren) (Plus is_space)))).
(** [^\s*[ivxlcdmIVXLCDM]+\.\s+] *)
Definition alt_roman : regex :=
  Seq Bol (Seq (Star is_space)
    (Seq (Plus is_roman) (Seq (Chr is_period) (Plus is_space)))).

(** [const PREFIX_REGEX], its tokens written apart:
    [^ ( \s* [-*+] \s+ | ^ \s* \d+ \. \s+ | ^ \s* [a-zA-Z] [.)] \s+
       | ^ \s* [ivxlcdmIVXLCDM]+ \. \s+ ) ( .* ) $] *)
Definition PREFIX_REGEX : regex :=
  Seq Bol
    (Seq (Grp 1 (Alt alt_bullet (Alt alt_numeric (Alt alt_alpha alt_roman))))
       (Seq (Grp 2 (Star is_dot)) Eol)).

(** The pattern of [line.match] in [processLine]: [^ ( \s* )] *)
Definition INDENT_REGEX : regex := Seq Bol (Grp 1 (Star is_space)).

(** [line.trim() === ''] *)
Definition is_blank (line : jsstring) : bool :=
  match trim line with
  | [] => true
  | _ :: _ => false
  end.

Definition processLine (line newPrefix : jsstring) : jsstring :=
  if is_blank line then line
  else
    let leadingWhitespaceMatch := str_match line INDENT_REGEX in
    let indentation :=
      match leadingWhitespaceMatch with
      | Some m => subst (at_index m 0)
      | None => []
      end in
    let content := substring line (length indentation) in
    let prefixMatch := str_match content PREFIX_REGEX in
    match prefixMatch with
    | Some m => indentation ++ newPrefix ++ subst (at_index m 2)
    | None => indentation ++ newPrefix ++ content
    end.

Definition formatBulletList (text : jsstring) : jsstring :=
  let lines := split LF text in
  let processedLines :=
    map (fun line =>
           if is_blank line then line
           else processLine line (js "- ")) lines in
  join [LF] processedLines.

Definition formatNumberedList (text : jsstring) : jsstring :=
  let lines := split LF text in
  let counter := 1 in
  let processedLines :=
    map_st (fun counter line =>
              if is_blank line then (line, counter)
              else
                let prefix := toString counter ++ js ". " in
                let counter := S counter in
                (processLine line prefix, counter)) counter lines in
  join [LF] processedLines.

Definition formatAlphabeticalList (text : jsstring) (lower : bool) : jsstring :=
  let lines := split LF text in
  let charCode :=
    if lower then charCodeAt (js "a") 0 else charCodeAt (js "A") 0 in
  let processedLines :=
    map_st (fun charCode line =>
              if is_blank line then (line, charCode)
              else
                let prefix := fromCharCode charCode ++ js ". " in
                let charCode := (charCode + 1)%N in
                let charCode :=
                  if lower && (charCodeAt (js "z") 0 <? charCode)%N
                  then charCodeAt (js "a") 0 else charCode in
                let charCode :=
                  if negb lower && (charCodeAt (js "Z") 0 <? charCode)%N
                  then charCodeAt (js "A") 0 else charCode in
                (processLine line prefix, charCode)) charCode lines in
  join [LF] processedLines.

Definition formatRomanList (text : jsstring) (lower : bool) : jsstring :=
  let lines := split LF text in
  let counter := 0 in
  let numerals := if lower then ROMAN_NUMERALS_LOWER else ROMAN_NUMERALS_UPPER in
  let processedLines :=
    map_st (fun counter line =>
              if is_blank line then (line, counter)
              else
                let numeral := nth_error numerals (counter mod length numerals) in
                let prefix := subst numeral ++ js ". " in
                let counter := S counter in
                (processLine line prefix, counter)) counter lines in
  join [LF] processedLines.

Definition formatCheckboxList (text : jsstring) : jsstring :=
  let lines := split LF text in
  let processedLines :=
    map (fun line =>
           if is_blank line then line
           else processLine line (js "- [ ] ")) lines in
  join [LF] processedLines.

(** The style identifiers of the caller (the [switch] of src/main.ts) and
    the function each one selects. *)
Inductive style : Type :=
| bullet | numbered | alphabetical | alphabeticalUpper
| roman | romanUpper | checkbox.

Definition applyStyle (st : style) (selection : jsstring) : jsstring :=
  match st with
  | bullet => formatBulletList selection
  | numbered => formatNumberedList selection
  | alphabetical => formatAlphabeticalList selection true
  | alphabeticalUpper => formatAlphabeticalList selection false
  | roman => formatRomanList selection true
  | romanUpper => formatRomanList selection false
  | checkbox => formatCheckboxList selection
  end.

(** ** Test inputs *)

Definition CR : code := 13%N.

(** The text whose lines are the given literals. *)
Definition text (ls : list string) : jsstring := join [LF] (map js ls).

(** ** Vocabulary of the specification *)

(** The longest prefix of [s] whose code units satisfy [p], and the rest. *)
Fixpoint take_while (p : code -> bool) (s : jsstring) : jsstring :=
  match s with
  | c :: s' => if p c then c :: take_while p s' else []
  | [] => []
  end.

Fixpoint drop_while (p : code -> bool) (s : jsstring) : jsstring :=
  match s with
  | c :: s' => if p c then drop_while p s' else s
  | [] => []
  end.

(** The leading indentation of a line: its maximal leading whitespace. *)
Definition leading_ws (line : jsstring) : jsstring := take_while is_space line.

(** The content of a line: what follows the indentation. *)
Definition content_of (line : jsstring) : jsstring := drop_while is_space line.

(** What [processLine] keeps of a content: the second group of
    [PREFIX_REGEX] where it matches, the whole content where it does not. *)
Definition residual (content : jsstring) : jsstring :=
  match str_match content PREFIX_REGEX with
  | Some m => subst (at_index m 2)
  | None => content
  end.

(** A line that is empty or made of whitespace only. *)
Definition all_whitespace (line : jsstring) : Prop :=
  Forall (fun c => is_space c = true) line.

(** A string without line separator. *)
Definition no_LF (s : jsstring) : Prop := Forall (fun c => c <> LF) s.

(** A string without any LineTerminator ([.] matches all of it). *)
Definition no_line_terminator (s : jsstring) : Prop :=
  Forall (fun c => is_line_terminator c = false) s.

(** The lines of a text. *)
Definition lines_of (t : jsstring) : list jsstring := split LF t.

(** How many of the lines before index [i] are non-blank. *)
Definition nonblank_before (ls : list jsstring) (i : nat) : nat :=
  length (filter (fun l => negb (is_blank l)) (firstn i ls)).

(** Lists with one element put in, or taken out, at an index. *)
Definition insert_at {A : Type} (i : nat) (x : A) (l : list A) : list A :=
  firstn i l ++ x :: skipn i l.

Definition remove_at {A : Type} (i : nat) (l : list A) : list A :=
  firstn i l ++ skipn (S i) l.

(** Roman numerals by the usual rules of numeral construction, per decimal
    digit (for numbers below 4000). *)
Definition roman_digit (one five ten : string) (d : nat) : string :=
  match d with
  | 1 => one
  | 2 => one ++ one
  | 3 => one ++ one ++ one
  | 4 => one ++ five
  | 5 => five
  | 6 => five ++ one
  | 7 => five ++ one ++ one
  | 8 => five ++ one ++ one ++ one
  | 9 => one ++ ten
  | _ => ""
  end%string.

Definition roman_numeral (n : nat) : jsstring :=
  js (roman_digit "M" "" "" (n / 1000)
      ++ roman_digit "C" "D" "M" ((n / 100) mod 10)
      ++ roman_digit "X" "L" "C" ((n / 10) mod 10)
      ++ roman_digit "I" "V" "X" (n mod 10))%string.

(** The marker of each style for the non-blank line of 0-based rank [k],
    as the specification tabulates it. *)
Definition marker (st : style) (k : nat) : jsstring :=
  match st with
  | bullet => js "- "
  | numbered => toString (k + 1) ++ js ". "
  | alphabetical =>
      [nth (k mod 26) (js "abcdefghijklmnopqrstuvwxyz") 0%N] ++ js ". "
  | alphabeticalUpper =>
      [nth (k mod 26) (js "ABCDEFGHIJKLMNOPQRSTUVWXYZ") 0%N] ++ js ". "
  | roman => toLowerCase (roman_numeral (k mod 20 + 1)) ++ js ". "
  | romanUpper => roman_numeral (k mod 20 + 1) ++ js ". "
  | checkbox => js "- [ ] "
  end.

(** The lines of a text, marked: a blank line is kept and keeps the rank,
    a non-blank line gets the marker of its rank. *)
Fixpoint mark_lines (mk : nat -> jsstring) (k : nat) (ls : list jsstring)
    : list jsstring :=
  match ls with
  | [] => []
  | l :: ls' =>
      if is_blank l then l :: mark_lines mk k ls'
      else processLine l (mk k) :: mark_lines mk (S k) ls'
  end.

(** In the matcher, [st'] is reached from [st] by consuming [n] code
    units. *)
Definition advance (n : nat) (st st' : mstate) : Prop :=
  n <= length (rest st) /\ pos st' = pos st + n /\ rest st' = skipn n (rest st).

(** Code units that print and are not whitespace (ASCII 33..126), and those
    that may also be a space. *)
Definition visible (c : code) : bool := (33 <=? c)%N && (c <=? 126)%N.
Definition printable (c : code) : bool := (32 <=? c)%N && (c <=? 126)%N.

(** ** The prefix detector, form by form *)

(** After an old marker: whitespace, at least one, then the residual
    content, which may hold no line terminator. *)
Definition after_marker (s : jsstring) : option jsstring :=
  match s with
  | d :: s' =>
      if is_space d then
        let r := drop_while is_space s' in
        if forallb is_dot r then Some r else None
      else None
  | [] => None
  end.

Definition after_period (s : jsstring) : option jsstring :=
  match s with
  | p :: s' => if is_period p then after_marker s' else None
  | [] => None
  end.

(** Bullet: one of [-], [*], [+]. *)
Definition detect_bullet (content : jsstring) : option jsstring :=
  match content with
  | c :: s => if is_bullet c then after_marker s else None
  | [] => None
  end.

(** Ordinal numeric: digits, then a period. *)
Definition detect_numeric (content : jsstring) : option jsstring :=
  match content with
  | c :: s => if is_digit c then after_period (drop_while is_digit s) else None
  | [] => None
  end.

(** Single-letter alphabetical: one ASCII letter, then a period or a
    closing parenthesis. *)
Definition detect_alpha (content : jsstring) : option jsstring :=
  match content with
  | c :: s =>
      if is_letter c then
        match s with
        | p :: s' => if is_dot_or_paren p then after_marker s' else None
        | [] => None
        end
      else None
  | [] => None
  end.

(** Roman numeral: letters of roman numerals, then a period. *)
Definition detect_roman (content : jsstring) : option jsstring :=
  match content with
  | c :: s => if is_roman c then after_period (drop_while is_roman s) else None
  | [] => None
  end.

Definition or_else {A : Type} (a b : option A) : option A :=
  match a with
  | Some x => Some x
  | None => b
  end.

(** The residual content where a marker is detected, the forms tried in
    the order bullet, numeric, alphabetical, roman. *)
Definition detect (content : jsstring) : option jsstring :=
  or_else (detect_bullet content)
    (or_else (detect_numeric content)
       (or_else (detect_alpha content) (detect_roman content))).

(** The second group of a match, if there is a match. *)
Definition group2 (x : option match_array) : option (option jsstring) :=
  option_map (fun m => at_index m 2) x.

(** A continuation that behaves as the end of [PREFIX_REGEX] does: it
    succeeds where [.] matches all that is left, which is then the second
    group. *)
Definition tail_like (k : mstate -> option match_array) : Prop :=
  forall st,
    group2 (k st) =
      if forallb is_dot (rest st) then Some (Some (rest st)) else None.

(** The marker forms the detector is to recognize. *)
Inductive marker_form : jsstring -> Prop :=
| form_bullet (c : code) :
    is_bullet c = true -> marker_form [c]
| form_numeric (ds : jsstring) :
    ds <> [] -> forallb is_digit ds = true -> marker_form (ds ++ js ".")
| form_alpha (c p : code) :
    is_letter c = true -> is_dot_or_paren p = true -> marker_form [c; p]
| form_roman (rs : jsstring) :
    rs <> [] -> forallb is_roman rs = true -> marker_form (rs ++ js ".").

(** A string that does not begin with whitespace. *)
Definition trimmed_start (s : jsstring) : Prop := drop_while is_space s = s.

(** A text whose only line terminators are its line separators. *)
Definition LF_only (t : jsstring) : Prop :=
  Forall (fun c => is_line_terminator c = true -> c = LF) t.

(** ** The forms of the detector, in any order *)

Inductive form : Type := Bullet_form | Numeric_form | Alpha_form | Roman_form.

(** The alternative of [PREFIX_REGEX] for each form, and what it detects. *)
Definition alt_of (f : form) : regex :=
  match f with
  | Bullet_form => alt_bullet
  | Numeric_form => alt_numeric
  | Alpha_form => alt_alpha
  | Roman_form => alt_roman
  end.

Definition detect_of (f : form) (content : jsstring) : option jsstring :=
  match f with
  | Bullet_form => detect_bullet content
  | Numeric_form => detect_numeric content
  | Alpha_form => detect_alpha content
  | Roman_form => detect_roman content
  end.

(** The alternatives of the forms [f], [fs], in that order. *)
Fixpoint alts (f : form) (fs : list form) : regex :=
  match fs with
  | [] => alt_of f
  | g :: gs => Alt (alt_of f) (alts g gs)
  end.

(** [PREFIX_REGEX] with its alternatives in the order [f], [fs]. *)
Definition prefix_regex_with (f : form) (fs : list form) : regex :=
  Seq Bol
    (Seq (Grp 1 (alts f fs))
       (Seq (Grp 2 (Star is_dot)) Eol)).

(** The first success of a list of attempts. *)
Fixpoint first_some {A : Type} (l : list (option A)) : option A :=
  match l with
  | [] => None
  | a :: l' => or_else a (first_some l')
  end.

(** When two ranks get the same marker in a style. *)
Definition same_marker_rank (st : style) (k k' : nat) : Prop :=
  match st with
  | bullet | checkbox => True
  | numbered => k = k'
  | alphabetical | alphabeticalUpper => k mod 26 = k' mod 26
  | roman | romanUpper => k mod 20 = k' mod 20
  end.

Definition form_eqb (f g : form) : bool :=
  match f, g with
  | Bullet_form, Bullet_form | Numeric_form, Numeric_form
  | Alpha_form, Alpha_form | Roman_form, Roman_form => true
  | _, _ => false
  end.

(** The list [l] has each of the four forms. *)
Definition has_all_forms (l : list form) : bool :=
  forallb (fun g => existsb (form_eqb g) l)
    [Bullet_form; Numeric_form; Alpha_form; Roman_form].

(** ** The caller: the command and the settings (src/main.ts) *)

(** [a === b] on strings. *)
Fixpoint str_eqb (a b : jsstring) : bool :=
  match a, b with
  | [], [] => true
  | x :: a', y :: b' => (x =? y)%N && str_eqb a' b'
  | _, _ => false
  end.

(** [a.includes(x)] on an array of strings. *)
Definition includes (a : list jsstring) (x : jsstring) : bool :=
  existsb (fun y => str_eqb y x) a.

(** [interface AdvancedListSettings] *)
Record AdvancedListSettings : Type := Settings {
  defaultStyle : jsstring;
  enabledStyles : list jsstring
}.

(** [const DEFAULT_ADVANCED_LIST_SETTINGS] *)
Definition DEFAULT_ADVANCED_LIST_SETTINGS : AdvancedListSettings :=
  {| defaultStyle := js "bullet";
     enabledStyles :=
       map js ["bullet"; "numbered"; "alphabetical"; "alphabeticalUpper";
               "roman"; "romanUpper"; "checkbox"]%string |}.

(** [const ALL_POSSIBLE_STYLES]: the own properties of the object, in the
    order of the literal, which is the order of [for ... in]. *)
Definition ALL_POSSIBLE_STYLES : list (jsstring * jsstring) :=
  [ (js "bullet", js "Bullet List (- item)");
    (js "numbered", js "Numbered List (1. item)");
    (js "alphabetical", js "Alphabetical List (a. item)");
    (js "alphabeticalUpper", js "Alphabetical List (A. item)");
    (js "roman", js "Roman Numeral List (i. item)");
    (js "romanUpper", js "Roman Numeral List (I. item)");
    (js "checkbox", js "Checkbox List (- [ ] item)") ].

(** The callback that the 'apply-list-style' command gives the modal: the
    [switch] on the style, then [editor.replaceSelection(formattedText)].
    [Some] is the text that replaces the selection; [None] is the
    [default] branch, which reports an unknown style and returns with the
    selection left as it is. *)
Definition applyListStyle (selection style : jsstring) : option jsstring :=
  if str_eqb style (js "bullet") then Some (formatBulletList selection)
  else if str_eqb style (js "numbered") then Some (formatNumberedList selection)
  else if str_eqb style (js "alphabetical")
    then Some (formatAlphabeticalList selection true)
  else if str_eqb style (js "alphabeticalUpper")
    then Some (formatAlphabeticalList selection false)
  else if str_eqb style (js "roman") then Some (formatRomanList selection true)
  else if str_eqb style (js "romanUpper")
    then Some (formatRomanList selection false)
  else if str_eqb style (js "checkbox") then Some (formatCheckboxList selection)
  else None.

(** The identifier of each style of [applyStyle]. *)
Definition style_id (st : style) : jsstring :=
  match st with
  | bullet => js "bullet"
  | numbered => js "numbered"
  | alphabetical => js "alphabetical"
  | alphabeticalUpper => js "alphabeticalUpper"
  | roman => js "roman"
  | romanUpper => js "romanUpper"
  | checkbox => js "checkbox"
  end.

(** [x || y] on values that are a string or undefined: the empty string
    and undefined are falsy. *)
Definition or_default (x : option jsstring) (y : jsstring) : jsstring :=
  match x with
  | Some (c :: s) => c :: s
  | Some [] | None => y
  end.

(** The [onChange] handler of the toggle of the style [styleId] in the
    settings tab, from its start to the settings it saves: [value] is the
    new state of the toggle.  ([push] changes the array of the settings in
    place, [filter] makes a new one that is then stored.) *)
Definition onToggle (styleId : jsstring) (value : bool)
    (settings : AdvancedListSettings) : AdvancedListSettings :=
  let enabled := enabledStyles settings in
  let enabled' :=
    if value then
      if negb (includes enabled styleId) then enabled ++ [styleId] else enabled
    else filter (fun s => negb (str_eqb s styleId)) enabled in
  let default' :=
    if negb (includes enabled' (defaultStyle settings))
    then or_default (nth_error enabled' 0) (js "bullet")
    else defaultStyle settings in
  {| defaultStyle := default'; enabledStyles := enabled' |}.

(** ** The string length limit *)

(** What a call comes to: a value, or the RangeError that the engine
    throws when a string longer than its limit is to be made. *)
Inductive outcome (A : Type) : Type :=
| Returns (a : A)
| Throws_RangeError.
Arguments Returns {A} a.
Arguments Throws_RangeError {A}.

Definition and_then {A B : Type} (x : outcome A) (f : A -> outcome B) : outcome B :=
  match x with
  | Returns a => f a
  | Throws_RangeError => Throws_RangeError
  end.

Section LengthLimit.

(** The longest string the engine makes. *)
Variable max_length : nat.

(** A string that is within the limit. *)
Definition fits (s : jsstring) : bool := length s <=? max_length.

(** A new string, of a template literal or of [join]. *)
Definition make (s : jsstring) : outcome jsstring :=
  if fits s then Returns s else Throws_RangeError.

(** [a.map(f)] for a callback that may throw. *)
Fixpoint map_checked {A B : Type} (f : A -> outcome B) (a : list A)
    : outcome (list B) :=
  match a with
  | [] => Returns []
  | x :: a' =>
      and_then (f x) (fun y =>
      and_then (map_checked f a') (fun ys => Returns (y :: ys)))
  end.

Fixpoint map_st_checked {S A B : Type} (f : S -> A -> outcome (B * S))
    (s : S) (a : list A) : outcome (list B) :=
  match a with
  | [] => Returns []
  | x :: a' =>
      and_then (f s x) (fun ys' =>
      and_then (map_st_checked f (snd ys') a') (fun ys =>
      Returns (fst ys' :: ys)))
  end.

(** The source again, with the limit: [processLine] and the five style
    functions, each template literal and each [join] making a string. *)
Definition processLine_checked (line newPrefix : jsstring) : outcome jsstring :=
  if is_blank line then Returns line
  else
    let leadingWhitespaceMatch := str_match line INDENT_REGEX in
    let indentation :=
      match leadingWhitespaceMatch with
      | Some m => subst (at_index m 0)
      | None => []
      end in
    let content := substring line (length indentation) in
    let prefixMatch := str_match content PREFIX_REGEX in
    match prefixMatch with
    | Some m => make (indentation ++ newPrefix ++ subst (at_index m 2))
    | None => make (indentation ++ newPrefix ++ content)
    end.

Definition formatBulletList_checked (text : jsstring) : outcome jsstring :=
  let lines := split LF text in
  and_then
    (map_checked (fun line =>
                    if is_blank line then Returns line
                    else processLine_checked line (js "- ")) lines)
    (fun processedLines => make (join [LF] processedLines)).

Definition formatNumberedList_checked (text : jsstring) : outcome jsstring :=
  let lines := split LF text in
  let counter := 1 in
  and_then
    (map_st_checked (fun counter line =>
       if is_blank line then Returns (line, counter)
       else
         and_then (make (toString counter ++ js ". ")) (fun prefix =>
         let counter := S counter in
         and_then (processLine_checked line prefix) (fun out =>
         Returns (out, counter)))) counter lines)
    (fun processedLines => make (join [LF] processedLines)).

Definition formatAlphabeticalList_checked (text : jsstring) (lower : bool)
    : outcome jsstring :=
  let lines := split LF text in
  let charCode :=
    if lower then charCodeAt (js "a") 0 else charCodeAt (js "A") 0 in
  and_then
    (map_st_checked (fun charCode line =>
       if is_blank line then Returns (line, charCode)
       else
         and_then (make (fromCharCode charCode ++ js ". ")) (fun prefix =>
         let charCode := (charCode + 1)%N in
         let charCode :=
           if lower && (charCodeAt (js "z") 0 <? charCode)%N
           then charCodeAt (js "a") 0 else charCode in
         let charCode :=
           if negb lower && (charCodeAt (js "Z") 0 <? charCode)%N
           then charCodeAt (js "A") 0 else charCode in
         and_then (processLine_checked line prefix) (fun out =>
         Returns (out, charCode)))) charCode lines)
    (fun processedLines => make (join [LF] processedLines)).

Definition formatRomanList_checked (text : jsstring) (lower : bool)
    : outcome jsstring :=
  let lines := split LF text in
  let counter := 0 in
  let numerals := if lower then ROMAN_NUMERALS_LOWER else ROMAN_NUMERALS_UPPER in
  and_then
    (map_st_checked (fun counter line =>
       if is_blank line then Returns (line, counter)
       else
         let numeral := nth_error numerals (counter mod length numerals) in
         and_then (make (subst numeral ++ js ". ")) (fun prefix =>
         let counter := S counter in
         and_then (processLine_checked line prefix) (fun out =>
         Returns (out, counter)))) counter lines)
    (fun processedLines => make (join [LF] processedLines)).

Definition formatCheckboxList_checked (text : jsstring) : outcome jsstring :=
  let lines := split LF text in
  and_then
    (map_checked (fun line =>
                    if is_blank line then Returns line
                    else processLine_checked line (js "- [ ] ")) lines)
    (fun processedLines => make (join [LF] processedLines)).

Definition applyStyle_checked (st : style) (selection : jsstring)
    : outcome jsstring :=
  match st with
  | bullet => formatBulletList_checked selection
  | numbered => formatNumberedList_checked selection
  | alphabetical => formatAlphabeticalList_checked selection true
  | alphabeticalUpper => formatAlphabeticalList_checked selection false
  | roman => formatRomanList_checked selection true
  | romanUpper => formatRomanList_checked selection false
  | checkbox => formatCheckboxList_checked selection
  end.

End LengthLimit.

(** ** Blank lines *)

Lemma trimStart_drop_while (s : jsstring) : trimStart s = drop_while is_space s.
Proof. induction s as [|c s IH]; simpl; [|destruct (is_space c)]; auto. Qed.

Lemma take_drop_while (p : code -> bool) (s : jsstring) :
  take_while p s ++ drop_while p s = s.
Proof.
  induction s as [|c s IH]; simpl; auto.
  destruct (p c); simpl; congruence.
Qed.

Lemma drop_while_skipn (p : code -> bool) (s : jsstring) :
  drop_while p s = skipn (length (take_while p s)) s.
Proof.
  induction s as [|c s IH]; simpl; auto.
  destruct (p c); simpl; auto.
Qed.

Lemma take_while_firstn (p : code -> bool) (s : jsstring) :
  take_while p s = firstn (length (take_while p s)) s.
Proof.
  induction s as [|c s IH]; simpl; auto.
  destruct (p c); simpl; congruence.
Qed.

Lemma take_while_all (p : code -> bool) (s : jsstring) :
  forallb p (take_while p s) = true.
Proof.
  induction s as [|c s IH]; simpl; auto.
  destruct (p c) eqn:E; simpl; auto. now rewrite E.
Qed.

Lemma drop_while_head (p : code -> bool) (s : jsstring) c r :
  drop_while p s = c :: r -> p c = false.
Proof.
  induction s as [|d s IH]; simpl; [discriminate|].
  destruct (p d) eqn:E; auto. intros [= <- _]. exact E.
Qed.

Lemma drop_while_nil (p : code -> bool) (s : jsstring) :
  drop_while p s = [] <-> forallb p s = true.
Proof.
  induction s as [|c s IH]; simpl; [tauto|].
  destruct (p c); simpl; auto. split; discriminate.
Qed.

Lemma drop_while_last (p : code -> bool) (s : jsstring) c :
  p c = false -> drop_while p (s ++ [c]) <> [].
Proof.
  intros Hc. induction s as [|d s IH]; simpl.
  - rewrite Hc. discriminate.
  - destruct (p d); auto. discriminate.
Qed.

(** [line.trim() === ''] holds exactly of the lines of whitespace. *)
Lemma is_blank_forallb (line : jsstring) : is_blank line = forallb is_space line.
Proof.
  unfold is_blank, trim, trimEnd. rewrite !trimStart_drop_while.
  destruct (drop_while is_space line) as [|c r] eqn:E.
  - apply drop_while_nil in E. now rewrite E.
  - assert (Hc := drop_while_head _ _ _ _ E).
    assert (Hf : forallb is_space line = false).
    { destruct (forallb is_space line) eqn:F; auto.
      apply drop_while_nil in F. congruence. }
    rewrite Hf. simpl rev.
    destruct (drop_while is_space (rev r ++ [c])) as [|d q] eqn:E2.
    + now apply drop_while_last in E2.
    + simpl. destruct (rev q); reflexivity.
Qed.

Lemma is_blank_all_whitespace (line : jsstring) :
  is_blank line = true <-> all_whitespace line.
Proof.
  rewrite is_blank_forallb. unfold all_whitespace.
  rewrite forallb_forall, Forall_forall. tauto.
Qed.

Lemma nonblank_content (line : jsstring) :
  is_blank line = false ->
  exists c r, content_of line = c :: r /\ is_space c = false.
Proof.
  rewrite is_blank_forallb. unfold content_of. intros H.
  destruct (drop_while is_space line) as [|c r] eqn:E.
  - apply drop_while_nil in E. congruence.
  - exists c, r. split; auto. eapply drop_while_head; eauto.
Qed.

Lemma line_indent_content (line : jsstring) :
  line = leading_ws line ++ content_of line.
Proof. symmetry. apply take_drop_while. Qed.

(** ** The matcher *)

Section MatcherFacts.
Context {R : Type}.
Implicit Types (k : mstate -> option R) (st : mstate).

Lemma run_Seq r1 r2 st k :
  run (Seq r1 r2) st k = run r1 st (fun st' => run r2 st' k).
Proof. reflexivity. Qed.

Lemma run_Alt r1 r2 st k :
  run (Alt r1 r2) st k =
    match run r1 st k with Some x => Some x | None => run r2 st k end.
Proof. reflexivity. Qed.

Lemma run_Bol n s cs k :
  run Bol (MState n s cs) k =
    if Nat.eqb n 0 then k (MState n s cs) else None.
Proof. reflexivity. Qed.

Lemma run_Eol n s cs k :
  run Eol (MState n s cs) k =
    match s with [] => k (MState n s cs) | _ :: _ => None end.
Proof. reflexivity. Qed.

Lemma run_Chr p n s cs k :
  run (Chr p) (MState n s cs) k =
    match s with
    | c :: s' => if p c then k (MState (S n) s' cs) else None
    | [] => None
    end.
Proof. reflexivity. Qed.

Lemma run_Star p n s cs k :
  run (Star p) (MState n s cs) k = star p n s cs k.
Proof. reflexivity. Qed.

Lemma run_Grp i r n s cs k :
  run (Grp i r) (MState n s cs) k =
    run r (MState n s cs) (fun st' =>
      k (MState (pos st') (rest st')
           ((i, firstn (pos st' - n) s) :: caps st'))).
Proof. reflexivity. Qed.

(** A greedy quantifier whose continuation never fails takes the longest
    run. *)
Lemma star_greedy p s n cs k :
  (forall st, k st <> None) ->
  star p n s cs k =
    k (MState (n + length (take_while p s)) (drop_while p s) cs).
Proof.
  intros Hk. revert n. induction s as [|c s IH]; intros n; simpl.
  - now rewrite Nat.add_0_r.
  - destruct (p c) eqn:E; simpl.
    + rewrite IH. rewrite <- Nat.add_succ_comm.
      destruct (k _) eqn:K; auto. now apply Hk in K.
    + now rewrite Nat.add_0_r.
Qed.

(** A successful quantifier hands over a state reached by consuming code
    units of its class. *)
Lemma star_advance p s n cs k x :
  star p n s cs k = Some x ->
  exists m, m <= length s /\ forallb p (firstn m s) = true /\
            k (MState (n + m) (skipn m s) cs) = Some x.
Proof.
  revert n. induction s as [|c s IH]; intros n; simpl.
  - intros H. exists 0. rewrite Nat.add_0_r. auto.
  - destruct (p c) eqn:E.
    + destruct (star p (S n) s cs k) eqn:S1.
      * intros [= <-]. destruct (IH _ S1) as (m & Hm & Hp & Hk).
        exists (S m). simpl. rewrite E, Hp, <- Nat.add_succ_comm.
        repeat split; auto. lia.
      * intros H. exists 0. rewrite Nat.add_0_r. simpl.
        repeat split; auto. lia.
    + intros H. exists 0. rewrite Nat.add_0_r. simpl.
      repeat split; auto. lia.
Qed.

(** Whatever the pattern, a match continues from a state further on in
    the same subject. *)
Lemma run_advance r : forall st k x,
  run r st k = Some x ->
  exists n st', advance n st st' /\ k st' = Some x.
Proof.
  induction r as [p|p|r1 IH1 r2 IH2|r1 IH1 r2 IH2| | |i r IH];
    intros st k x; simpl.
  - destruct (rest st) as [|c s] eqn:E; [discriminate|].
    destruct (p c); [|discriminate]. intros H.
    exists 1, (MState (S (pos st)) s (caps st)). split; auto.
    unfold advance. simpl. rewrite E. simpl. repeat split; lia.
  - intros H. apply star_advance in H. destruct H as (m & Hm & _ & Hk).
    exists m, (MState (pos st + m) (skipn m (rest st)) (caps st)).
    split; auto. unfold advance. simpl. auto.
  - intros H. apply IH1 in H. destruct H as (n1 & st1 & (A1 & A2 & A3) & H).
    apply IH2 in H. destruct H as (n2 & st2 & (B1 & B2 & B3) & H).
    exists (n1 + n2), st2. split; auto. unfold advance.
    rewrite A3, length_skipn in B1. rewrite B2, A2, B3, A3, skipn_skipn.
    repeat split; try lia. f_equal. lia.
  - destruct (run r1 st k) eqn:E1.
    + intros [= <-]. eauto.
    + eauto.
  - destruct (Nat.eqb (pos st) 0); [|discriminate]. intros H.
    exists 0, st. split; auto. unfold advance. simpl. repeat split; lia.
  - destruct (rest st) eqn:E; [|discriminate]. intros H.
    exists 0, st. split; auto. unfold advance. simpl. repeat split; lia.
  - intros H. apply IH in H. destruct H as (n & st' & (A1 & A2 & A3) & H).
    eexists n, _. split; [|exact H]. unfold advance. simpl. auto.
Qed.
End MatcherFacts.

(** A pattern that begins with [^] can only match at index 0. *)
Lemma exec_from_bol (r : regex) (s : jsstring) (i more : nat) :
  exec_from (Seq Bol r) s (S i) more = None.
Proof.
  revert i. induction more as [|f IH]; intros i; simpl; auto.
Qed.

Lemma str_match_bol (r : regex) (s : jsstring) :
  str_match s (Seq Bol r) = exec_at (Seq Bol r) s 0.
Proof.
  unfold str_match. destruct (length s) as [|f]; simpl exec_from.
  - destruct (exec_at _ _ _); reflexivity.
  - rewrite exec_from_bol. destruct (exec_at _ _ _); reflexivity.
Qed.

(** The indentation pattern always matches, and matches the leading
    whitespace. *)
Lemma indent_match (line : jsstring) :
  str_match line INDENT_REGEX =
    Some (MatchArray (leading_ws line) [(1, leading_ws line)]).
Proof.
  unfold INDENT_REGEX. rewrite str_match_bol. unfold exec_at.
  cbn [skipn]. rewrite run_Seq, run_Bol. cbn [Nat.eqb].
  rewrite run_Grp, run_Star, star_greedy by discriminate. cbn [pos rest caps].
  rewrite Nat.sub_0_r, Nat.add_0_l, <- take_while_firstn. reflexivity.
Qed.

(** Where the prefix pattern matches, its second group is defined and is
    what is left of the content after the text of the first group. *)
Lemma prefix_match_shape (content : jsstring) (m : match_array) :
  str_match content PREFIX_REGEX = Some m ->
  exists old rest,
    content = old ++ rest /\ matched m = content /\
    at_index m 1 = Some old /\ at_index m 2 = Some rest /\
    no_line_terminator rest.
Proof.
  unfold PREFIX_REGEX. rewrite str_match_bol. unfold exec_at.
  cbn [skipn]. rewrite run_Seq, run_Bol. cbn [Nat.eqb]. rewrite run_Seq, run_Grp.
  intros H.
  apply run_advance in H. destruct H as (n1 & st1 & (A1 & A2 & A3) & H).
  cbn [pos rest caps] in *. destruct st1 as [p1 s1 c1]. cbn [pos rest caps] in *.
  rewrite run_Seq, run_Grp, run_Star in H.
  apply star_advance in H. destruct H as (n2 & B1 & B2 & H).
  cbn [rest pos caps] in H. rewrite run_Eol in H.
  destruct (skipn n2 s1) eqn:E; [|discriminate].
  injection H as <-. cbn [matched at_index assoc captures Nat.eqb].
  assert (F : firstn n2 s1 = s1).
  { rewrite <- (firstn_skipn n2 s1) at 2. rewrite E. now rewrite app_nil_r. }
  exists (firstn n1 content), (skipn n1 content).
  rewrite firstn_skipn.
  replace (p1 + n2 - p1) with n2 by lia.
  replace (p1 + n2 - 0) with (length content).
  2:{ rewrite A3 in E. rewrite skipn_skipn in E.
      assert (L := length_skipn (n2 + n1) content). rewrite E in L. simpl in L.
      rewrite A3, length_skipn in B1. lia. }
  replace (p1 - 0) with n1 by lia.
  rewrite firstn_all, F. subst s1. repeat split; auto.
  unfold no_line_terminator. rewrite <- F.
  apply Forall_forall. intros c Hc.
  rewrite forallb_forall in B2. specialize (B2 c Hc).
  unfold is_dot in B2. now destruct (is_line_terminator c).
Qed.

(** ** The line processor *)

Lemma processLine_blank (line newPrefix : jsstring) :
  is_blank line = true -> processLine line newPrefix = line.
Proof. unfold processLine. now intros ->. Qed.

Lemma processLine_nonblank (line newPrefix : jsstring) :
  is_blank line = false ->
  processLine line newPrefix =
    leading_ws line ++ newPrefix ++ residual (content_of line).
Proof.
  intros H. unfold processLine. rewrite H, indent_match.
  cbn [at_index matched subst]. unfold substring, leading_ws.
  rewrite <- drop_while_skipn. fold (content_of line). unfold residual.
  destruct (str_match (content_of line) PREFIX_REGEX); reflexivity.
Qed.

Lemma residual_suffix (content : jsstring) :
  exists old, content = old ++ residual content.
Proof.
  unfold residual. destruct (str_match content PREFIX_REGEX) as [m|] eqn:E.
  - destruct (prefix_match_shape _ _ E) as (old & r & H1 & _ & _ & H2 & _).
    exists old. now rewrite H2.
  - now exists [].
Qed.

Lemma residual_no_match (content : jsstring) :
  str_match content PREFIX_REGEX = None -> residual content = content.
Proof. unfold residual. now intros ->. Qed.

(** The leading whitespace of [w ++ s] is [w] when [w] is whitespace and
    [s] begins with something else. *)
Lemma leading_ws_app (w s : jsstring) c :
  forallb is_space w = true -> is_space c = false ->
  leading_ws (w ++ c :: s) = w.
Proof.
  intros Hw Hc. unfold leading_ws. induction w as [|d w IH]; simpl in *.
  - now rewrite Hc.
  - apply andb_true_iff in Hw. destruct Hw as [-> Hw]. now rewrite IH.
Qed.

Lemma is_blank_app_nonspace (w s : jsstring) c :
  is_space c = false -> is_blank (w ++ c :: s) = false.
Proof.
  intros Hc. rewrite is_blank_forallb, forallb_app. simpl. rewrite Hc.
  simpl. apply andb_false_r.
Qed.

(** ** Lines *)

Lemma split_not_nil (sep : code) (s : jsstring) : split sep s <> [].
Proof.
  destruct s as [|c s]; simpl; [discriminate|].
  destruct (c =? sep)%N; [discriminate|].
  destruct (split sep s); discriminate.
Qed.

Lemma join_cons (sep l : jsstring) (a : list jsstring) :
  a <> [] -> join sep (l :: a) = l ++ sep ++ join sep a.
Proof. destruct a; [congruence|reflexivity]. Qed.

Lemma join_split (sep : code) (s : jsstring) : join [sep] (split sep s) = s.
Proof.
  induction s as [|c s IH]; simpl; auto.
  destruct (N.eqb_spec c sep) as [->|Hne].
  - rewrite join_cons by apply split_not_nil. simpl. now rewrite IH.
  - destruct (split sep s) as [|l ls] eqn:E.
    + now apply split_not_nil in E.
    + destruct ls; simpl in *; congruence.
Qed.

Lemma split_app_free (sep : code) (l s : jsstring) :
  Forall (fun c => c <> sep) l ->
  split sep (l ++ sep :: s) = l :: split sep s.
Proof.
  induction 1 as [|c l Hc Hl IH]; simpl.
  - now rewrite N.eqb_refl.
  - rewrite IH. destruct (N.eqb_spec c sep); [contradiction|reflexivity].
Qed.

Lemma split_free (sep : code) (l : jsstring) :
  Forall (fun c => c <> sep) l -> split sep l = [l].
Proof.
  induction 1 as [|c l Hc Hl IH]; simpl; auto.
  rewrite IH. destruct (N.eqb_spec c sep); [contradiction|reflexivity].
Qed.

Lemma split_join (sep : code) (a : list jsstring) :
  a <> [] -> Forall (Forall (fun c => c <> sep)) a ->
  split sep (join [sep] a) = a.
Proof.
  induction a as [|l a IH]; [congruence|]. intros _ H.
  inversion H as [|? ? Hl Ha]; subst.
  destruct a as [|l' a'].
  - simpl. now apply split_free.
  - rewrite join_cons by discriminate. simpl app.
    rewrite split_app_free by assumption. f_equal. apply IH; [discriminate|auto].
Qed.

Lemma split_pieces_free (sep : code) (s : jsstring) :
  Forall (Forall (fun c => c <> sep)) (split sep s).
Proof.
  induction s as [|c s IH]; simpl.
  - repeat constructor.
  - destruct (N.eqb_spec c sep) as [->|Hne].
    + constructor; auto.
    + destruct (split sep s) as [|l ls]; [repeat constructor; auto|].
      inversion IH; subst. constructor; auto.
Qed.

Lemma lines_no_LF (t : jsstring) : Forall no_LF (lines_of t).
Proof. apply split_pieces_free. Qed.

Lemma lines_of_join (a : list jsstring) :
  a <> [] -> Forall no_LF a -> lines_of (join [LF] a) = a.
Proof. apply split_join. Qed.

(** ** Marking lines *)

Lemma mark_lines_length mk k ls : length (mark_lines mk k ls) = length ls.
Proof.
  revert k. induction ls as [|l ls IH]; intros k; simpl; auto.
  destruct (is_blank l); simpl; now rewrite IH.
Qed.

Lemma mark_lines_ext mk mk' k ls :
  (forall j, k <= j -> mk j = mk' j) ->
  mark_lines mk k ls = mark_lines mk' k ls.
Proof.
  revert k. induction ls as [|l ls IH]; intros k H; simpl; auto.
  destruct (is_blank l).
  - f_equal. now apply IH.
  - rewrite (H k) by lia. f_equal. apply IH. intros j Hj. apply H. lia.
Qed.

(** The line at index [i] gets the marker whose rank is the number of
    non-blank lines before it. *)
Lemma mark_lines_nth mk k ls i line :
  nth_error ls i = Some line ->
  nth_error (mark_lines mk k ls) i =
    Some (if is_blank line then line
          else processLine line (mk (k + nonblank_before ls i))).
Proof.
  unfold nonblank_before.
  revert k i. induction ls as [|l ls IH]; intros k i; [now destruct i|].
  destruct i as [|i]; simpl.
  - intros [= ->]. rewrite Nat.add_0_r. now destruct (is_blank line).
  - intros H. destruct (is_blank l); simpl.
    + now apply IH.
    + rewrite (IH (S k) i H). now rewrite Nat.add_succ_comm.
Qed.

(** A blank line put in changes nothing around it. *)
Lemma mark_lines_insert mk k l1 l2 b :
  is_blank b = true ->
  mark_lines mk k (l1 ++ b :: l2) =
    insert_at (length l1) b (mark_lines mk k (l1 ++ l2)).
Proof.
  intros Hb. unfold insert_at.
  revert k. induction l1 as [|l l1 IH]; intros k; simpl.
  - now rewrite Hb.
  - destruct (is_blank l); simpl; now rewrite IH.
Qed.

(** ** The markers *)

Lemma visible_not_space (c : code) : visible c = true -> is_space c = false.
Proof.
  unfold visible, is_space. intros H. apply andb_true_iff in H.
  destruct H as [H1 H2]. apply N.leb_le in H1, H2.
  apply orb_false_iff. split.
  - cbn [existsb]. repeat (apply orb_false_iff; split); auto; apply N.eqb_neq; lia.
  - apply andb_false_iff. left. apply N.leb_gt. lia.
Qed.

Lemma printable_not_LF (c : code) : printable c = true -> c <> LF.
Proof.
  unfold printable, LF. intros H. apply andb_true_iff in H.
  destruct H as [H1 H2]. apply N.leb_le in H1, H2. lia.
Qed.

Lemma visible_printable (c : code) : visible c = true -> printable c = true.
Proof.
  unfold visible, printable. intros H. apply andb_true_iff in H.
  destruct H as [H1 H2]. apply N.leb_le in H1, H2.
  apply andb_true_iff. split; apply N.leb_le; lia.
Qed.

Lemma uint_codes_visible (u : Decimal.uint) :
  forallb visible (uint_codes u) = true.
Proof. induction u; simpl; auto. Qed.

Lemma toString_not_nil (n : nat) : toString n <> [].
Proof.
  unfold toString.
  assert (H : Nat.to_uint n <> Decimal.Nil).
  { rewrite <- (DecimalNat.Unsigned.of_to n) at 1.
    rewrite DecimalNat.Unsigned.to_of. apply DecimalFacts.unorm_nonnil. }
  destruct (Nat.to_uint n); try congruence; discriminate.
Qed.

(** The table of the source holds the numerals of 1 to 20. *)
Lemma roman_table_upper :
  ROMAN_NUMERALS_UPPER = map roman_numeral (seq 1 20).
Proof. reflexivity. Qed.

Lemma roman_table_lower :
  ROMAN_NUMERALS_LOWER = map (fun n => toLowerCase (roman_numeral n)) (seq 1 20).
Proof. reflexivity. Qed.

Lemma roman_lookup (lower : bool) (k : nat) :
  let numerals := if lower then ROMAN_NUMERALS_LOWER else ROMAN_NUMERALS_UPPER in
  nth_error numerals (k mod length numerals) =
    Some (if lower then toLowerCase (roman_numeral (k mod 20 + 1))
          else roman_numeral (k mod 20 + 1)).
Proof.
  assert (H : k mod 20 < 20) by (apply Nat.mod_upper_bound; discriminate).
  destruct lower; cbv zeta.
  - change (length ROMAN_NUMERALS_LOWER) with 20. rewrite roman_table_lower.
    rewrite nth_error_map, nth_error_seq.
    destruct (Nat.ltb_spec (k mod 20) 20); [|lia].
    simpl option_map. now rewrite Nat.add_comm.
  - change (length ROMAN_NUMERALS_UPPER) with 20. rewrite roman_table_upper.
    rewrite nth_error_map, nth_error_seq.
    destruct (Nat.ltb_spec (k mod 20) 20); [|lia].
    simpl option_map. now rewrite Nat.add_comm.
Qed.

Lemma letter_lookup (alphabet : jsstring) (base : N) (j : nat) :
  alphabet = map (fun i => (base + N.of_nat i)%N) (seq 0 26) ->
  j < 26 -> nth j alphabet 0%N = (base + N.of_nat j)%N.
Proof.
  intros -> Hj.
  apply nth_error_nth. rewrite nth_error_map, nth_error_seq.
  destruct (Nat.ltb_spec j 26); [reflexivity|lia].
Qed.

Lemma succ_mod (k m : nat) :
  1 < m -> S k mod m = if Nat.eqb (S (k mod m)) m then 0 else S (k mod m).
Proof.
  intros Hm.
  assert (Hb : k mod m < m) by (apply Nat.mod_upper_bound; lia).
  assert (Hk := Nat.div_mod_eq k m).
  destruct (Nat.eqb_spec (S (k mod m)) m) as [E|E].
  - symmetry. apply (Nat.mod_unique _ _ (S (k / m))); [lia|]. nia.
  - symmetry. apply (Nat.mod_unique _ _ (k / m)); [lia|]. nia.
Qed.

(** ** The style functions mark the lines *)

Lemma constant_lines (p : jsstring) (k : nat) (ls : list jsstring) :
  map (fun line => if is_blank line then line else processLine line p) ls =
    mark_lines (fun _ => p) k ls.
Proof.
  revert k. induction ls as [|l ls IH]; intros k; simpl; auto.
  destruct (is_blank l); f_equal; apply IH.
Qed.

Lemma numbered_lines (k : nat) (ls : list jsstring) :
  map_st (fun counter line =>
            if is_blank line then (line, counter)
            else (processLine line (toString counter ++ js ". "), S counter))
    (S k) ls =
  mark_lines (marker numbered) k ls.
Proof.
  revert k. induction ls as [|l ls IH]; intros k; simpl; auto.
  destruct (is_blank l); simpl; rewrite IH; auto.
  now rewrite Nat.add_1_r.
Qed.

Lemma alphabetical_lines (lower : bool) (k : nat) (ls : list jsstring) :
  let base := if lower then 97%N else 65%N in
  map_st (fun charCode line =>
            if is_blank line then (line, charCode)
            else
              let prefix := fromCharCode charCode ++ js ". " in
              let charCode := (charCode + 1)%N in
              let charCode :=
                if lower && (charCodeAt (js "z") 0 <? charCode)%N
                then charCodeAt (js "a") 0 else charCode in
              let charCode :=
                if negb lower && (charCodeAt (js "Z") 0 <? charCode)%N
                then charCodeAt (js "A") 0 else charCode in
              (processLine line prefix, charCode))
    (base + N.of_nat (k mod 26))%N ls =
  mark_lines (marker (if lower then alphabetical else alphabeticalUpper)) k ls.
Proof.
  cbv zeta. revert k. induction ls as [|l ls IH]; intros k; [reflexivity|].
  cbn [map_st mark_lines].
  destruct (is_blank l); [now rewrite IH|].
  assert (Hj : k mod 26 < 26) by (apply Nat.mod_upper_bound; discriminate).
  assert (Hs := succ_mod k 26 ltac:(lia)).
  change (charCodeAt (js "z") 0) with 122%N.
  change (charCodeAt (js "a") 0) with 97%N.
  change (charCodeAt (js "Z") 0) with 90%N.
  change (charCodeAt (js "A") 0) with 65%N.
  f_equal.
  - f_equal. unfold fromCharCode. destruct lower; cbn [marker]; f_equal; f_equal.
    + rewrite (letter_lookup _ 97%N) by (reflexivity || assumption).
      apply N.mod_small. lia.
    + rewrite (letter_lookup _ 65%N) by (reflexivity || assumption).
      apply N.mod_small. lia.
  - rewrite <- IH. f_equal. rewrite Hs.
    destruct lower; cbn [andb negb].
    + destruct (N.ltb_spec 122 (97 + N.of_nat (k mod 26) + 1));
        destruct (Nat.eqb_spec (S (k mod 26)) 26); lia.
    + destruct (N.ltb_spec 90 (65 + N.of_nat (k mod 26) + 1));
        destruct (Nat.eqb_spec (S (k mod 26)) 26); lia.
Qed.

Lemma roman_lines (lower : bool) (k : nat) (ls : list jsstring) :
  let numerals := if lower then ROMAN_NUMERALS_LOWER else ROMAN_NUMERALS_UPPER in
  map_st (fun counter line =>
            if is_blank line then (line, counter)
            else
              let numeral := nth_error numerals (counter mod length numerals) in
              (processLine line (subst numeral ++ js ". "), S counter))
    k ls =
  mark_lines (marker (if lower then roman else romanUpper)) k ls.
Proof.
  cbv zeta. revert k. induction ls as [|l ls IH]; intros k; [reflexivity|].
  cbn [map_st mark_lines].
  destruct (is_blank l); [now rewrite IH|].
  rewrite IH. f_equal. f_equal.
  rewrite (roman_lookup lower k). now destruct lower.
Qed.

(** Every style function marks the lines of its text with the markers of
    its style, from rank 0. *)
Lemma applyStyle_mark_lines (st : style) (t : jsstring) :
  applyStyle st t = join [LF] (mark_lines (marker st) 0 (lines_of t)).
Proof.
  destruct st; cbn [applyStyle]; unfold lines_of.
  - unfold formatBulletList. cbv zeta. now rewrite (constant_lines _ 0).
  - unfold formatNumberedList. cbv zeta. now rewrite numbered_lines.
  - unfold formatAlphabeticalList. cbv zeta.
    now rewrite <- (alphabetical_lines true 0).
  - unfold formatAlphabeticalList. cbv zeta.
    now rewrite <- (alphabetical_lines false 0).
  - unfold formatRomanList. cbv zeta. now rewrite <- (roman_lines true 0).
  - unfold formatRomanList. cbv zeta. now rewrite <- (roman_lines false 0).
  - unfold formatCheckboxList. cbv zeta. now rewrite (constant_lines _ 0).
Qed.

Lemma marker_head (st : style) (k : nat) :
  exists c r, marker st k = c :: r /\ visible c = true.
Proof.
  assert (H26 : k mod 26 < 26) by (apply Nat.mod_upper_bound; discriminate).
  assert (H20 : k mod 20 < 20) by (apply Nat.mod_upper_bound; discriminate).
  destruct st; cbn [marker].
  - eexists _, _. split; reflexivity.
  - assert (Hn := toString_not_nil (k + 1)).
    assert (Hv := uint_codes_visible (Nat.to_uint (k + 1))).
    fold (toString (k + 1)) in Hv.
    destruct (toString (k + 1)) as [|c r]; [congruence|].
    simpl in Hv. apply andb_true_iff in Hv. exists c, (r ++ js ". "). tauto.
  - eexists _, _. split; [reflexivity|].
    rewrite (letter_lookup _ 97%N) by (reflexivity || assumption).
    unfold visible. apply andb_true_iff. split; apply N.leb_le; lia.
  - eexists _, _. split; [reflexivity|].
    rewrite (letter_lookup _ 65%N) by (reflexivity || assumption).
    unfold visible. apply andb_true_iff. split; apply N.leb_le; lia.
  - revert H20. generalize (k mod 20). intros j Hj.
    do 20 (destruct j as [|j]; [eexists _, _; split; reflexivity|]). lia.
  - revert H20. generalize (k mod 20). intros j Hj.
    do 20 (destruct j as [|j]; [eexists _, _; split; reflexivity|]). lia.
  - eexists _, _. split; reflexivity.
Qed.

Lemma marker_printable (st : style) (k : nat) :
  forallb printable (marker st k) = true.
Proof.
  assert (H26 : k mod 26 < 26) by (apply Nat.mod_upper_bound; discriminate).
  assert (H20 : k mod 20 < 20) by (apply Nat.mod_upper_bound; discriminate).
  destruct st; cbn [marker]; try reflexivity.
  - rewrite forallb_app, andb_true_r. apply forallb_forall. intros c Hc.
    apply visible_printable.
    assert (Hv := uint_codes_visible (Nat.to_uint (k + 1))).
    rewrite forallb_forall in Hv. now apply Hv.
  - rewrite (letter_lookup _ 97%N) by (reflexivity || assumption).
    change (js ". ") with [46%N; 32%N]. cbn [app forallb].
    change (printable 46%N && (printable 32%N && true)) with true.
    rewrite andb_true_r.
    unfold printable. apply andb_true_iff. split; apply N.leb_le; lia.
  - rewrite (letter_lookup _ 65%N) by (reflexivity || assumption).
    change (js ". ") with [46%N; 32%N]. cbn [app forallb].
    change (printable 46%N && (printable 32%N && true)) with true.
    rewrite andb_true_r.
    unfold printable. apply andb_true_iff. split; apply N.leb_le; lia.
  - revert H20. generalize (k mod 20). intros j Hj.
    do 20 (destruct j as [|j]; [reflexivity|]). lia.
  - revert H20. generalize (k mod 20). intros j Hj.
    do 20 (destruct j as [|j]; [reflexivity|]). lia.
Qed.

Lemma marker_no_LF (st : style) (k : nat) : no_LF (marker st k).
Proof.
  apply Forall_forall. intros c Hc. apply printable_not_LF.
  assert (H := marker_printable st k). rewrite forallb_forall in H. auto.
Qed.

Lemma processLine_no_LF (line p : jsstring) :
  no_LF line -> no_LF p -> no_LF (processLine line p).
Proof.
  intros Hl Hp. destruct (is_blank line) eqn:B.
  - now rewrite processLine_blank.
  - rewrite processLine_nonblank by assumption.
    unfold no_LF in *. rewrite (line_indent_content line) in Hl.
    apply Forall_app in Hl. destruct Hl as [Hw Hc].
    destruct (residual_suffix (content_of line)) as [old Ho].
    rewrite Ho in Hc. apply Forall_app in Hc. destruct Hc as [_ Hr].
    repeat (apply Forall_app; split); assumption.
Qed.

Lemma mark_lines_no_LF (st : style) (k : nat) (ls : list jsstring) :
  Forall no_LF ls -> Forall no_LF (mark_lines (marker st) k ls).
Proof.
  intros H. revert k. induction H as [|l ls Hl Hls IH]; intros k; simpl.
  - constructor.
  - destruct (is_blank l); constructor; auto.
    apply processLine_no_LF; auto using marker_no_LF.
Qed.

(** The lines of the output are the marked lines of the input. *)
Lemma lines_of_applyStyle (st : style) (t : jsstring) :
  lines_of (applyStyle st t) = mark_lines (marker st) 0 (lines_of t).
Proof.
  rewrite applyStyle_mark_lines. apply lines_of_join.
  - intros E. apply (f_equal (@length _)) in E.
    rewrite mark_lines_length in E. simpl in E.
    apply length_zero_iff_nil in E. now apply split_not_nil in E.
  - apply mark_lines_no_LF, lines_no_LF.
Qed.

(** The output line at an index, from the input line at that index. *)
Lemma applyStyle_nth (st : style) (t : jsstring) (i : nat) (line : jsstring) :
  nth_error (lines_of t) i = Some line ->
  nth_error (lines_of (applyStyle st t)) i =
    Some (if is_blank line then line
          else leading_ws line
                 ++ marker st (nonblank_before (lines_of t) i)
                 ++ residual (content_of line)).
Proof.
  intros H. rewrite lines_of_applyStyle, (mark_lines_nth _ _ _ _ _ H).
  destruct (is_blank line) eqn:B; [reflexivity|].
  now rewrite processLine_nonblank.
Qed.

Lemma nth_error_split_at {A : Type} (l : list A) (i : nat) (x : A) :
  nth_error l i = Some x ->
  l = firstn i l ++ x :: skipn (S i) l /\ length (firstn i l) = i.
Proof.
  revert i. induction l as [|y l IH]; intros i; [now destruct i|].
  destruct i as [|i]; simpl.
  - intros [= ->]. auto.
  - intros H. destruct (IH _ H) as [E L]. split; [now f_equal|now f_equal].
Qed.

(** ** The prefix detector *)

Section Detector.
Context {R : Type}.
Implicit Types (k : mstate -> option R).

Lemma take_while_skipn (p : code -> bool) (s : jsstring) (j : nat) :
  j < length (take_while p s) ->
  exists c r, skipn j s = c :: r /\ p c = true.
Proof.
  revert j. induction s as [|c s IH]; intros j; simpl; [lia|].
  destruct (p c) eqn:E; simpl; [|lia].
  destruct j as [|j]; simpl; [eauto|]. intros H. apply IH. lia.
Qed.

Lemma skipn_drop_while (p : code -> bool) (s : jsstring) (j : nat) :
  j <= length (take_while p s) ->
  exists w, skipn j s = w ++ drop_while p s.
Proof.
  revert j. induction s as [|c s IH]; intros j; simpl.
  - exists []. now destruct j.
  - destruct (p c) eqn:E; simpl.
    + destruct j as [|j]; simpl.
      * intros _. exists (c :: take_while p s). simpl.
        now rewrite take_drop_while.
      * intros H. apply IH. lia.
    + intros H. assert (j = 0) by lia. subst. now exists [].
Qed.

(** A greedy quantifier followed by something that, failing after the
    longest run, fails after every shorter one, is decided by the
    longest run. *)
Lemma star_decided p s n cs k :
  (k (MState (n + length (take_while p s)) (drop_while p s) cs) = None ->
   forall j, j < length (take_while p s) ->
             k (MState (n + j) (skipn j s) cs) = None) ->
  star p n s cs k =
    k (MState (n + length (take_while p s)) (drop_while p s) cs).
Proof.
  revert n. induction s as [|c s IH]; intros n H; simpl.
  - now rewrite Nat.add_0_r.
  - destruct (p c) eqn:E; simpl in *; rewrite ?E in *; simpl in *.
    + rewrite <- Nat.add_succ_comm in *. rewrite IH.
      * destruct (k _) eqn:K; auto.
        specialize (H eq_refl 0 ltac:(lia)). now rewrite Nat.add_0_r in H.
      * intros K j Hj. specialize (H K (S j) ltac:(lia)).
        now rewrite <- Nat.add_succ_comm in H.
    + now rewrite Nat.add_0_r.
Qed.

(** [p+ q ...] where no code unit is of both classes: all of the run of
    [p] is taken. *)
Lemma plus_then_chr p q r n c s cs k :
  (forall d, p d = true -> q d = false) ->
  run (Seq (Plus p) (Seq (Chr q) r)) (MState n (c :: s) cs) k =
    if p c then
      match drop_while p s with
      | d :: s2 =>
          if q d
          then run r (MState (S (S n + length (take_while p s))) s2 cs) k
          else None
      | [] => None
      end
    else None.
Proof.
  intros D. unfold Plus. rewrite !run_Seq, run_Chr.
  destruct (p c); [|reflexivity].
  rewrite run_Star, star_decided.
  - rewrite run_Seq, run_Chr. reflexivity.
  - intros _ j Hj. rewrite run_Seq, run_Chr.
    destruct (take_while_skipn _ _ _ Hj) as (d & w & -> & Hd).
    now rewrite (D _ Hd).
Qed.
End Detector.

Lemma digit_not_period (c : code) : is_digit c = true -> is_period c = false.
Proof.
  intros H. unfold is_period, in_set. cbn.
  destruct (N.eqb_spec c 46) as [->|]; [discriminate H|reflexivity].
Qed.

Lemma roman_not_period (c : code) : is_roman c = true -> is_period c = false.
Proof.
  intros H. unfold is_period, in_set. cbn.
  destruct (N.eqb_spec c 46) as [->|]; [discriminate H|reflexivity].
Qed.

(** The end of the prefix pattern, [( .* ) $]. *)
Lemma tail_run (n : nat) (s : jsstring) (cs : list (nat * jsstring))
    (kf : mstate -> option match_array) :
  run (Seq (Grp 2 (Star is_dot)) Eol) (MState n s cs) kf =
    if forallb is_dot s
    then kf (MState (n + length s) [] ((2, s) :: cs))
    else None.
Proof.
  rewrite run_Seq, run_Grp, run_Star, star_decided.
  - cbn [pos rest caps]. rewrite run_Eol.
    destruct (drop_while is_dot s) eqn:E.
    + assert (F := E). apply drop_while_nil in F. rewrite F.
      assert (T := take_drop_while is_dot s). rewrite E, app_nil_r in T.
      rewrite T. replace (n + length s - n) with (length s) by lia.
      now rewrite firstn_all.
    + destruct (forallb is_dot s) eqn:F; auto.
      apply drop_while_nil in F. congruence.
  - intros _ j Hj. cbn [pos rest caps]. rewrite run_Eol.
    destruct (take_while_skipn _ _ _ Hj) as (d & w & -> & _). reflexivity.
Qed.

(** [\s+] before such an end. *)
Lemma plus_ws_run (k : mstate -> option match_array) n s cs :
  tail_like k ->
  group2 (run (Plus is_space) (MState n s cs) k) =
    option_map Some (after_marker s).
Proof.
  intros T. unfold Plus. rewrite run_Seq. destruct s as [|d s]; [reflexivity|].
  rewrite run_Chr. cbn [after_marker]. destruct (is_space d); [|reflexivity].
  rewrite run_Star, star_decided.
  - rewrite T. cbn [rest]. now destruct (forallb is_dot _).
  - intros K j Hj.
    destruct (skipn_drop_while is_space s j ltac:(lia)) as [w Hw].
    rewrite Hw.
    assert (G := T (MState (S n + j) (w ++ drop_while is_space s) cs)).
    assert (G' := T (MState (S n + length (take_while is_space s))
                            (drop_while is_space s) cs)).
    rewrite K in G'. cbn [rest group2 option_map] in *.
    destruct (forallb is_dot (drop_while is_space s)) eqn:F; [discriminate|].
    rewrite forallb_app, F, andb_false_r in G.
    match goal with |- ?x = None => destruct x end;
      [discriminate G|reflexivity].
Qed.

Lemma alt_bullet_run (k : mstate -> option match_array) c s :
  is_space c = false -> tail_like k ->
  group2 (run alt_bullet (MState 0 (c :: s) []) k) =
    option_map Some (detect_bullet (c :: s)).
Proof.
  intros Hc T. unfold alt_bullet. rewrite run_Seq, run_Star.
  cbn [star]. rewrite Hc, run_Seq, run_Chr. cbn [detect_bullet].
  destruct (is_bullet c); [|reflexivity]. now apply plus_ws_run.
Qed.

Lemma alt_numeric_run (k : mstate -> option match_array) c s :
  is_space c = false -> tail_like k ->
  group2 (run alt_numeric (MState 0 (c :: s) []) k) =
    option_map Some (detect_numeric (c :: s)).
Proof.
  intros Hc T. unfold alt_numeric. rewrite run_Seq, run_Bol. cbn [Nat.eqb].
  rewrite run_Seq, run_Star. cbn [star]. rewrite Hc.
  rewrite plus_then_chr by apply digit_not_period. cbn [detect_numeric].
  destruct (is_digit c); [|reflexivity].
  destruct (drop_while is_digit s) as [|d s2]; [reflexivity|].
  cbn [after_period]. destruct (is_period d); [|reflexivity].
  now apply plus_ws_run.
Qed.

Lemma alt_alpha_run (k : mstate -> option match_array) c s :
  is_space c = false -> tail_like k ->
  group2 (run alt_alpha (MState 0 (c :: s) []) k) =
    option_map Some (detect_alpha (c :: s)).
Proof.
  intros Hc T. unfold alt_alpha. rewrite run_Seq, run_Bol. cbn [Nat.eqb].
  rewrite run_Seq, run_Star. cbn [star]. rewrite Hc.
  rewrite run_Seq, run_Chr. cbn [detect_alpha].
  destruct (is_letter c); [|reflexivity].
  rewrite run_Seq. destruct s as [|p s']; [reflexivity|]. rewrite run_Chr.
  destruct (is_dot_or_paren p); [|reflexivity]. now apply plus_ws_run.
Qed.

Lemma alt_roman_run (k : mstate -> option match_array) c s :
  is_space c = false -> tail_like k ->
  group2 (run alt_roman (MState 0 (c :: s) []) k) =
    option_map Some (detect_roman (c :: s)).
Proof.
  intros Hc T. unfold alt_roman. rewrite run_Seq, run_Bol. cbn [Nat.eqb].
  rewrite run_Seq, run_Star. cbn [star]. rewrite Hc.
  rewrite plus_then_chr by apply roman_not_period. cbn [detect_roman].
  destruct (is_roman c); [|reflexivity].
  destruct (drop_while is_roman s) as [|d s2]; [reflexivity|].
  cbn [after_period]. destruct (is_period d); [|reflexivity].
  now apply plus_ws_run.
Qed.

Lemma group2_or_else (a b : option match_array) :
  group2 (match a with Some x => Some x | None => b end) =
    or_else (group2 a) (group2 b).
Proof. now destruct a. Qed.

Lemma option_map_or_else {A B : Type} (f : A -> B) (a b : option A) :
  option_map f (or_else a b) = or_else (option_map f a) (option_map f b).
Proof. now destruct a. Qed.

(** On a content that begins with something else than whitespace, the
    prefix pattern matches where one of the four forms is detected, and its
    second group is then the residual content. *)
Lemma prefix_detect (c : code) (s : jsstring) :
  is_space c = false ->
  group2 (str_match (c :: s) PREFIX_REGEX) = option_map Some (detect (c :: s)).
Proof.
  intros Hc. unfold PREFIX_REGEX. rewrite str_match_bol. unfold exec_at.
  cbn [skipn]. rewrite run_Seq, run_Bol. cbn [Nat.eqb]. rewrite run_Seq, run_Grp.
  match goal with |- group2 (run _ _ ?k) = _ => set (K := k) end.
  assert (T : tail_like K).
  { intros st. subst K. cbv beta. rewrite tail_run. cbn [rest].
    destruct (forallb is_dot (rest st)); reflexivity. }
  unfold detect. rewrite !run_Alt, !group2_or_else, !option_map_or_else.
  rewrite alt_bullet_run, alt_numeric_run, alt_alpha_run, alt_roman_run by assumption.
  reflexivity.
Qed.

(** What [processLine] keeps of the content of a non-blank line. *)
Lemma residual_detect (c : code) (s : jsstring) :
  is_space c = false ->
  residual (c :: s) =
    match detect (c :: s) with
    | Some r => r
    | None => c :: s
    end.
Proof.
  intros Hc. assert (H := prefix_detect c s Hc). unfold residual.
  destruct (str_match (c :: s) PREFIX_REGEX) as [m|];
    destruct (detect (c :: s)); cbn [group2 option_map] in H;
    try discriminate; auto.
  injection H as H. cbn [at_index]. now rewrite H.
Qed.

(** ** The classes of the pattern *)

Lemma in_set_In (s : string) (c : code) : in_set s c = true -> In c (js s).
Proof.
  unfold in_set. intros H. apply existsb_exists in H.
  destruct H as (x & Hx & E). apply N.eqb_eq in E. now subst.
Qed.

Lemma in_set_all (s : string) (q : code -> bool) (c : code) :
  forallb q (js s) = true -> in_set s c = true -> q c = true.
Proof.
  intros H Hc. rewrite forallb_forall in H. now apply H, in_set_In.
Qed.

Lemma in_range_bounds (lo hi : string) (c : code) :
  in_range lo hi c = true ->
  (charCodeAt (js lo) 0 <= c <= charCodeAt (js hi) 0)%N.
Proof.
  unfold in_range. intros H. apply andb_true_iff in H.
  destruct H as [H1 H2]. apply N.leb_le in H1, H2. auto.
Qed.

Lemma digit_bounds c : is_digit c = true -> (48 <= c <= 57)%N.
Proof. apply in_range_bounds. Qed.

Lemma letter_bounds c :
  is_letter c = true -> (97 <= c <= 122)%N \/ (65 <= c <= 90)%N.
Proof.
  unfold is_letter. intros H. apply orb_true_iff in H.
  destruct H as [H|H]; apply in_range_bounds in H; auto.
Qed.

Lemma not_in_set (s : string) (c : code) :
  Forall (fun x => c <> x) (js s) -> in_set s c = false.
Proof.
  unfold in_set. induction 1 as [|x l Hx Hl IH]; simpl; auto.
  rewrite IH, orb_false_r. now apply N.eqb_neq.
Qed.

Lemma digit_not_bullet c : is_digit c = true -> is_bullet c = false.
Proof.
  intros H. apply digit_bounds in H. apply not_in_set.
  repeat constructor; cbn; lia.
Qed.

Lemma letter_not_bullet c : is_letter c = true -> is_bullet c = false.
Proof.
  intros H. apply letter_bounds in H. apply not_in_set.
  repeat constructor; cbn; lia.
Qed.

Lemma letter_not_digit c : is_letter c = true -> is_digit c = false.
Proof.
  intros H. apply letter_bounds in H. unfold is_digit, in_range.
  change (charCodeAt (js "0") 0) with 48%N.
  change (charCodeAt (js "9") 0) with 57%N.
  apply andb_false_iff.
  destruct (N.leb_spec 48 c); destruct (N.leb_spec c 57); auto; lia.
Qed.

Lemma roman_is_letter c : is_roman c = true -> is_letter c = true.
Proof. now apply in_set_all. Qed.

Lemma roman_not_dot_or_paren c : is_roman c = true -> is_dot_or_paren c = false.
Proof.
  intros H. apply (in_set_all _ (fun x => negb (is_dot_or_paren x))) in H;
    [|reflexivity].
  now destruct (is_dot_or_paren c).
Qed.

Lemma bullet_not_space c : is_bullet c = true -> is_space c = false.
Proof.
  intros H. apply (in_set_all _ (fun x => negb (is_space x))) in H;
    [|reflexivity].
  now destruct (is_space c).
Qed.

Lemma digit_not_space c : is_digit c = true -> is_space c = false.
Proof.
  intros H. apply digit_bounds in H. apply visible_not_space.
  unfold visible. apply andb_true_iff. split; apply N.leb_le; lia.
Qed.

Lemma letter_not_space c : is_letter c = true -> is_space c = false.
Proof.
  intros H. apply letter_bounds in H. apply visible_not_space.
  unfold visible. apply andb_true_iff. split; apply N.leb_le; lia.
Qed.

(** ** Recognized markers are replaced *)

Lemma drop_while_app_all (p : code -> bool) (w r : jsstring) :
  forallb p w = true -> drop_while p (w ++ r) = drop_while p r.
Proof.
  induction w as [|c w IH]; simpl; auto.
  intros H. apply andb_true_iff in H. destruct H as [-> H]. auto.
Qed.

Lemma no_line_terminator_dots (r : jsstring) :
  no_line_terminator r -> forallb is_dot r = true.
Proof.
  intros H. apply forallb_forall. intros c Hc.
  unfold no_line_terminator in H. rewrite Forall_forall in H.
  unfold is_dot. now rewrite (H c Hc).
Qed.

Lemma after_marker_ws (ws r : jsstring) :
  ws <> [] -> forallb is_space ws = true ->
  trimmed_start r -> no_line_terminator r ->
  after_marker (ws ++ r) = Some r.
Proof.
  intros Hn Hw Ht Hr. destruct ws as [|d ws]; [congruence|].
  simpl in Hw. apply andb_true_iff in Hw. destruct Hw as [Hd Hw].
  cbn [app after_marker]. rewrite Hd, drop_while_app_all by assumption.
  rewrite Ht. now rewrite no_line_terminator_dots.
Qed.

Lemma drop_while_run (p : code -> bool) (w : jsstring) (x : code) (r : jsstring) :
  forallb p w = true -> p x = false -> drop_while p (w ++ x :: r) = x :: r.
Proof.
  intros Hw Hx. rewrite drop_while_app_all by assumption. simpl. now rewrite Hx.
Qed.

(** A content made of a marker of one of the four forms, whitespace, and
    a residual content without line terminator is detected, with that
    residual content. *)
Lemma detect_form (m ws r : jsstring) :
  marker_form m ->
  ws <> [] -> forallb is_space ws = true ->
  trimmed_start r -> no_line_terminator r ->
  detect (m ++ ws ++ r) = Some r.
Proof.
  intros Hm Hn Hw Ht Hr.
  assert (A := after_marker_ws ws r Hn Hw Ht Hr).
  unfold detect.
  destruct Hm as [c Hc|ds Hds Hd|c p Hc Hp|rs Hrs Hro].
  - cbn [app detect_bullet]. now rewrite Hc, A.
  - destruct ds as [|d ds]; [congruence|]. simpl in Hd.
    apply andb_true_iff in Hd. destruct Hd as [Hd Hds'].
    rewrite <- app_assoc. cbn [app detect_bullet detect_numeric].
    rewrite (digit_not_bullet _ Hd), Hd. cbn [or_else].
    change (js ".") with [46%N]. cbn [app].
    rewrite drop_while_run by (assumption || reflexivity).
    cbn [after_period]. change (is_period 46%N) with true. cbv iota.
    now rewrite A.
  - cbn [app detect_bullet detect_numeric detect_alpha].
    rewrite (letter_not_bullet _ Hc), (letter_not_digit _ Hc), Hc, Hp.
    cbn [or_else]. now rewrite A.
  - destruct rs as [|c rs]; [congruence|]. simpl in Hro.
    apply andb_true_iff in Hro. destruct Hro as [Hc Hrs'].
    assert (Hl := roman_is_letter _ Hc).
    rewrite <- app_assoc. change (js ".") with [46%N].
    cbn [app detect_bullet detect_numeric detect_alpha detect_roman].
    rewrite (letter_not_bullet _ Hl), (letter_not_digit _ Hl), Hl, Hc.
    cbn [or_else].
    destruct rs as [|c' rs].
    + cbn [app]. change (is_dot_or_paren 46%N) with true. cbv iota.
      now rewrite A.
    + simpl in Hrs'. apply andb_true_iff in Hrs'. destruct Hrs' as [Hc' Hrs'].
      cbn [app]. rewrite (roman_not_dot_or_paren _ Hc'). cbn [or_else].
      change (c' :: rs ++ 46%N :: ws ++ r) with ((c' :: rs) ++ 46%N :: ws ++ r).
      rewrite drop_while_run; [|simpl; now rewrite Hc'|reflexivity].
      cbn [after_period]. change (is_period 46%N) with true. cbv iota.
      now rewrite A.
Qed.

Lemma marker_form_head (m : jsstring) :
  marker_form m -> exists c r, m = c :: r /\ is_space c = false.
Proof.
  intros [c Hc|ds Hds Hd|c p Hc Hp|rs Hrs Hro].
  - eauto using bullet_not_space.
  - destruct ds as [|d ds]; [congruence|]. simpl in Hd.
    apply andb_true_iff in Hd. destruct Hd as [Hd _].
    exists d, (ds ++ js "."). eauto using digit_not_space.
  - eauto using letter_not_space.
  - destruct rs as [|c rs]; [congruence|]. simpl in Hro.
    apply andb_true_iff in Hro. destruct Hro as [Hc _].
    exists c, (rs ++ js "."). eauto using letter_not_space, roman_is_letter.
Qed.

(** A non-blank line with a marker of one of the four forms, and no line
    terminator after it, has the marker replaced by the new prefix. *)
Lemma processLine_replaces (W m ws r newPrefix : jsstring) :
  forallb is_space W = true ->
  marker_form m ->
  ws <> [] -> forallb is_space ws = true ->
  trimmed_start r -> no_line_terminator r ->
  processLine (W ++ m ++ ws ++ r) newPrefix = W ++ newPrefix ++ r.
Proof.
  intros HW Hm Hn Hw Ht Hr.
  destruct (marker_form_head m Hm) as (c & q & E & Hc).
  assert (B : is_blank (W ++ m ++ ws ++ r) = false).
  { rewrite E. cbn [app]. now apply is_blank_app_nonspace. }
  rewrite processLine_nonblank by assumption.
  assert (L : leading_ws (W ++ m ++ ws ++ r) = W).
  { rewrite E. cbn [app]. now apply leading_ws_app. }
  assert (C : content_of (W ++ m ++ ws ++ r) = m ++ ws ++ r).
  { unfold content_of. rewrite drop_while_app_all by assumption.
    rewrite E. cbn [app drop_while]. now rewrite Hc. }
  rewrite L, C. f_equal. f_equal.
  rewrite E. cbn [app]. rewrite residual_detect by assumption.
  change (c :: q ++ ws ++ r) with ((c :: q) ++ ws ++ r). rewrite <- E.
  now rewrite detect_form.
Qed.

(** ** Formatting what is already formatted *)

Lemma drop_while_idem (p : code -> bool) (s : jsstring) :
  drop_while p (drop_while p s) = drop_while p s.
Proof.
  induction s as [|c s IH]; simpl; auto.
  destruct (p c) eqn:E; auto. simpl. now rewrite E.
Qed.

Lemma after_marker_trimmed (s r : jsstring) :
  after_marker s = Some r -> trimmed_start r.
Proof.
  destruct s as [|d s]; simpl; [discriminate|].
  destruct (is_space d); [|discriminate].
  destruct (forallb is_dot _); [|discriminate].
  intros [= <-]. apply drop_while_idem.
Qed.

Lemma after_period_trimmed (s r : jsstring) :
  after_period s = Some r -> trimmed_start r.
Proof.
  destruct s as [|p s]; simpl; [discriminate|].
  destruct (is_period p); [|discriminate]. apply after_marker_trimmed.
Qed.

Lemma detect_trimmed (content r : jsstring) :
  detect content = Some r -> trimmed_start r.
Proof.
  unfold detect, or_else.
  destruct (detect_bullet content) eqn:E1;
    [|destruct (detect_numeric content) eqn:E2;
      [|destruct (detect_alpha content) eqn:E3;
        [|destruct (detect_roman content) eqn:E4; [|discriminate]]]];
    intros [= <-]; destruct content as [|c s]; try discriminate;
    cbn [detect_bullet detect_numeric detect_alpha detect_roman] in *.
  - destruct (is_bullet c); [|discriminate]. eapply after_marker_trimmed; eauto.
  - destruct (is_digit c); [|discriminate]. eapply after_period_trimmed; eauto.
  - destruct (is_letter c); [|discriminate]. destruct s as [|p s]; [discriminate|].
    destruct (is_dot_or_paren p); [|discriminate].
    eapply after_marker_trimmed; eauto.
  - destruct (is_roman c); [|discriminate]. eapply after_period_trimmed; eauto.
Qed.

Lemma residual_trimmed (c : code) (s : jsstring) :
  is_space c = false -> trimmed_start (residual (c :: s)).
Proof.
  intros Hc. rewrite residual_detect by assumption.
  destruct (detect (c :: s)) eqn:E.
  - eapply detect_trimmed; eauto.
  - unfold trimmed_start. simpl. now rewrite Hc.
Qed.

(** A line that [processLine] has given the prefix "- ", or "- [ ] ", is
    left as it is by [processLine] with the prefix "- ", when it holds no
    line terminator. *)
Lemma processLine_again (line p : jsstring) :
  p = js "- " \/ p = js "- [ ] " ->
  is_blank line = false -> no_line_terminator line ->
  is_blank (processLine line p) = false
  /\ processLine (processLine line p) (js "- ") = processLine line p.
Proof.
  intros Hp B Hl. rewrite processLine_nonblank by assumption.
  destruct (nonblank_content line B) as (c & s & C & Hc).
  assert (Ht := residual_trimmed c s Hc).
  destruct (residual_suffix (c :: s)) as [old Ho].
  assert (Hr : no_line_terminator (residual (c :: s))).
  { unfold no_line_terminator in *.
    rewrite (line_indent_content line), C, Ho in Hl.
    apply Forall_app in Hl. destruct Hl as [_ Hl].
    apply Forall_app in Hl. tauto. }
  rewrite C. split.
  - destruct Hp as [-> | ->]; change (js "- ") with ([45%N] ++ [32%N]);
      cbn [app]; now apply is_blank_app_nonspace.
  - assert (HW : forallb is_space (leading_ws line) = true)
      by apply take_while_all.
    assert (Hb : marker_form [45%N]) by now constructor.
    assert (Hn : [32%N] <> []) by discriminate.
    destruct Hp as [-> | ->].
    + exact (processLine_replaces _ [45%N] [32%N] _ (js "- ")
               HW Hb Hn eq_refl Ht Hr).
    + assert (Ht' : trimmed_start (js "[ ] " ++ residual (c :: s)))
        by reflexivity.
      assert (Hr' : no_line_terminator (js "[ ] " ++ residual (c :: s))).
      { unfold no_line_terminator. apply Forall_app. split; auto.
        repeat constructor. }
      exact (processLine_replaces _ [45%N] [32%N] _ (js "- ")
               HW Hb Hn eq_refl Ht' Hr').
Qed.

Lemma mark_lines_again (p : jsstring) (k k' : nat) (ls : list jsstring) :
  (forall l, In l ls -> is_blank l = false ->
     is_blank (processLine l p) = false
     /\ processLine (processLine l p) (js "- ") = processLine l p) ->
  mark_lines (fun _ => js "- ") k (mark_lines (fun _ => p) k' ls) =
    mark_lines (fun _ => p) k' ls.
Proof.
  revert k k'. induction ls as [|l ls IH]; intros k k' H; [reflexivity|].
  cbn [mark_lines]. destruct (is_blank l) eqn:B; cbn [mark_lines].
  - rewrite B. f_equal. apply IH. intros; apply H; simpl; auto.
  - destruct (H l (or_introl eq_refl) B) as [B' E]. rewrite B', E.
    f_equal. apply IH. intros; apply H; simpl; auto.
Qed.

Lemma split_In (sep : code) (s l : jsstring) (c : code) :
  In l (split sep s) -> In c l -> In c s.
Proof.
  revert l. induction s as [|d s IH]; intros l; simpl.
  - intros [<-|[]] [].
  - destruct (N.eqb_spec d sep).
    + intros [<-|H] Hc; [destruct Hc|]. right. eapply IH; eauto.
    + destruct (split sep s) as [|l' ls] eqn:E.
      * intros [<-|[]] [<-|[]]. auto.
      * intros [<-|H] Hc.
        -- destruct Hc as [<-|Hc]; auto. right. apply (IH l'); simpl; auto.
        -- right. apply (IH l); simpl; auto.
Qed.

Lemma lines_no_line_terminator (t : jsstring) :
  LF_only t -> Forall no_line_terminator (lines_of t).
Proof.
  intros H. apply Forall_forall. intros l Hl.
  apply Forall_forall. intros c Hc.
  assert (Hn := lines_no_LF t). rewrite Forall_forall in Hn.
  specialize (Hn l Hl). unfold no_LF in Hn. rewrite Forall_forall in Hn.
  specialize (Hn c Hc).
  unfold LF_only in H. rewrite Forall_forall in H.
  specialize (H c (split_In _ _ _ _ Hl Hc)).
  destruct (is_line_terminator c); auto. now elim Hn; apply H.
Qed.

Lemma bullet_after (st : style) (t : jsstring) :
  st = bullet \/ st = checkbox ->
  LF_only t ->
  formatBulletList (applyStyle st t) = applyStyle st t.
Proof.
  intros Hst Ht. change (formatBulletList (applyStyle st t))
    with (applyStyle bullet (applyStyle st t)).
  rewrite (applyStyle_mark_lines bullet), lines_of_applyStyle.
  rewrite (applyStyle_mark_lines st t). f_equal.
  assert (Hl := lines_no_line_terminator t Ht). rewrite Forall_forall in Hl.
  destruct Hst as [-> | ->].
  - apply (mark_lines_again (js "- ") 0 0).
    intros l Hin B; apply processLine_again; auto.
  - apply (mark_lines_again (js "- [ ] ") 0 0).
    intros l Hin B; apply processLine_again; auto.
Qed.

(** On a text whose only line terminators are its line separators,
    [formatBulletList] is idempotent. *)
Lemma formatBulletList_idempotent_LF_only (t : jsstring) :
  LF_only t -> formatBulletList (formatBulletList t) = formatBulletList t.
Proof. intros H. apply (bullet_after bullet); auto. Qed.

(** On such a text, [formatBulletList] leaves the output of
    [formatCheckboxList] as it is. *)
Lemma formatBulletList_after_checkbox_LF_only (t : jsstring) :
  LF_only t ->
  formatBulletList (formatCheckboxList t) = formatCheckboxList t.
Proof. intros H. apply (bullet_after checkbox); auto. Qed.

(** In every style, a line that carries a marker of one of the four forms,
    with no line terminator after it, comes out with the marker of its
    rank in place of the old one. *)
Lemma marker_replaced (st : style) (t : jsstring) (i : nat)
    (W m ws r : jsstring) :
  nth_error (lines_of t) i = Some (W ++ m ++ ws ++ r) ->
  forallb is_space W = true ->
  marker_form m ->
  ws <> [] -> forallb is_space ws = true ->
  trimmed_start r -> no_line_terminator r ->
  nth_error (lines_of (applyStyle st t)) i =
    Some (W ++ marker st (nonblank_before (lines_of t) i) ++ r).
Proof.
  intros H HW Hm Hn Hw Ht Hr.
  rewrite lines_of_applyStyle, (mark_lines_nth _ _ _ _ _ H).
  destruct (marker_form_head m Hm) as (c & q & E & Hc).
  assert (B : is_blank (W ++ m ++ ws ++ r) = false).
  { rewrite E. cbn [app]. now apply is_blank_app_nonspace. }
  rewrite B. f_equal. now apply processLine_replaces.
Qed.
(** ** The claims *)

(** C2.  [formatNumberedList] numbers the non-blank lines from 1, one by
    one, and a blank line takes no number: the text of the lines "a", "b",
    "", "c" becomes that of "1. a", "2. b", "", "3. c", and in any text the
    k-th non-blank line (counted from 1) comes out as its indentation, the
    marker "k. " and its residual content. *)
Theorem numbered_sequencing :
  formatNumberedList (text ["a"; "b"; ""; "c"]%string)
    = text ["1. a"; "2. b"; ""; "3. c"]%string
  /\ forall (t : jsstring) (i : nat) (line : jsstring),
       nth_error (lines_of t) i = Some line ->
       is_blank line = false ->
       let k := S (nonblank_before (lines_of t) i) in
       nth_error (lines_of (formatNumberedList t)) i =
         Some (leading_ws line ++ (toString k ++ js ". ")
                 ++ residual (content_of line)).
Proof.
  split; [reflexivity|].
  intros t i line H B k.
  change (formatNumberedList t) with (applyStyle numbered t).
  rewrite (applyStyle_nth _ _ _ _ H), B. cbn [marker].
  subst k. now rewrite Nat.add_1_r.
Qed.

Lemma numbered_sequencing_witness :
  nth_error (lines_of (formatNumberedList (text ["x"; "  "; "  - y"]%string))) 2
    = Some (js "  2. y").
Proof.
  exact (proj2 numbered_sequencing (text ["x"; "  "; "  - y"]%string) 2
           (js "  - y") eq_refl eq_refl).
Defined.

(** C3.  In every style, a line that is empty or made of whitespace only
    comes out as it went in, at its place, and does not count: where the
    text has other lines, the output is the output for the text without
    that line, with the line put back in. *)
Theorem blank_lines_preserved (st : style) (t : jsstring) (i : nat) (b : jsstring) :
  nth_error (lines_of t) i = Some b ->
  all_whitespace b ->
  nth_error (lines_of (applyStyle st t)) i = Some b
  /\ (remove_at i (lines_of t) <> [] ->
      lines_of (applyStyle st t) =
        insert_at i b
          (lines_of (applyStyle st (join [LF] (remove_at i (lines_of t)))))).
Proof.
  intros H Hb. apply is_blank_all_whitespace in Hb. split.
  - rewrite (applyStyle_nth _ _ _ _ H). now rewrite Hb.
  - intros Hne. destruct (nth_error_split_at _ _ _ H) as [E L].
    assert (Hl := lines_no_LF t). rewrite E in Hl.
    apply Forall_app in Hl. destruct Hl as [H1 H2]. inversion H2; subst.
    rewrite (lines_of_applyStyle st (join _ _)).
    unfold remove_at in *. rewrite lines_of_join; auto.
    2:{ apply Forall_app. split; assumption. }
    rewrite lines_of_applyStyle. rewrite E at 1.
    rewrite mark_lines_insert by assumption. now rewrite L.
Qed.

Lemma blank_lines_preserved_witness :
  nth_error (lines_of (applyStyle numbered (text ["a"; "  "; "b"]%string))) 1
    = Some (js "  ")
  /\ lines_of (applyStyle numbered (text ["a"; "  "; "b"]%string))
     = insert_at 1 (js "  ")
         (lines_of (applyStyle numbered (text ["a"; "b"]%string))).
Proof.
  assert (W : all_whitespace (js "  ")) by (repeat constructor).
  destruct (blank_lines_preserved numbered (text ["a"; "  "; "b"]%string) 1
              (js "  ") eq_refl W) as [H1 H2].
  split; [exact H1|]. apply H2. discriminate.
Defined.



(** C7.  [formatRomanList] takes its numerals from a table of 20 entries,
    the Roman numerals of 1 to 20, in lower case when [lower] is set; the
    non-blank line of 0-based rank k gets the entry of index k mod 20
    followed by ". ", so that the 21st non-blank line gets the marker of
    the first again, "i. " in lower case. *)
Theorem roman_cycling (lower : bool) :
  let numerals := if lower then ROMAN_NUMERALS_LOWER else ROMAN_NUMERALS_UPPER in
  length numerals = 20
  /\ ROMAN_NUMERALS_UPPER = map roman_numeral (seq 1 20)
  /\ ROMAN_NUMERALS_LOWER = map toLowerCase ROMAN_NUMERALS_UPPER
  /\ forall (t : jsstring) (i : nat) (line : jsstring),
       nth_error (lines_of t) i = Some line ->
       is_blank line = false ->
       let k := nonblank_before (lines_of t) i in
       exists numeral,
         nth_error numerals (k mod 20) = Some numeral
         /\ nth_error (lines_of (formatRomanList t lower)) i =
              Some (leading_ws line ++ (numeral ++ js ". ")
                      ++ residual (content_of line))
         /\ (k = 20 -> nth_error numerals 0 = Some numeral
                       /\ numeral = if lower then js "i" else js "I").
Proof.
  cbv zeta. split; [now destruct lower|].
  split; [reflexivity|]. split; [reflexivity|].
  intros t i line H B.
  assert (L := roman_lookup lower (nonblank_before (lines_of t) i)).
  cbv zeta in L.
  replace (length (if lower then ROMAN_NUMERALS_LOWER else ROMAN_NUMERALS_UPPER))
    with 20 in L by now destruct lower.
  eexists. split; [exact L|]. split.
  - replace (formatRomanList t lower)
      with (applyStyle (if lower then roman else romanUpper) t)
      by now destruct lower.
    rewrite (applyStyle_nth _ _ _ _ H), B. now destruct lower.
  - intros ->. now destruct lower.
Qed.

Lemma roman_cycling_witness :
  nth_error (lines_of (formatRomanList (text (repeat "x"%string 21)) true)) 20
    = Some (js "i. x").
Proof.
  destruct (proj2 (proj2 (proj2 (roman_cycling true)))
              (text (repeat "x"%string 21)) 20 (js "x") eq_refl eq_refl)
    as (numeral & _ & H2 & H3).
  destruct (H3 eq_refl) as [_ E]. rewrite E in H2. exact H2.
Defined.

(** C8.  [formatAlphabeticalList] gives the non-blank line of 0-based rank
    k the letter at position k mod 26 of the alphabet, counted from 'a'
    (from 'A' when [lower] is not set), followed by ". "; after 'z' it
    starts again, so that the 27th non-blank line gets "a. " in lower
    case. *)
Theorem alphabetical_wrap (lower : bool) :
  let alphabet := if lower then js "abcdefghijklmnopqrstuvwxyz"
                  else js "ABCDEFGHIJKLMNOPQRSTUVWXYZ" in
  forall (t : jsstring) (i : nat) (line : jsstring),
    nth_error (lines_of t) i = Some line ->
    is_blank line = false ->
    let k := nonblank_before (lines_of t) i in
    let letter := nth (k mod 26) alphabet 0%N in
    nth_error (lines_of (formatAlphabeticalList t lower)) i =
      Some (leading_ws line ++ ([letter] ++ js ". ")
              ++ residual (content_of line))
    /\ letter = ((if lower then charCodeAt (js "a") 0 else charCodeAt (js "A") 0)
                 + N.of_nat (k mod 26))%N
    /\ (k = 26 -> [letter] ++ js ". " = if lower then js "a. " else js "A. ").
Proof.
  cbv zeta. intros t i line H B. split; [|split].
  - replace (formatAlphabeticalList t lower)
      with (applyStyle (if lower then alphabetical else alphabeticalUpper) t)
      by now destruct lower.
    rewrite (applyStyle_nth _ _ _ _ H), B. now destruct lower.
  - assert (Hj : nonblank_before (lines_of t) i mod 26 < 26)
      by (apply Nat.mod_upper_bound; discriminate).
    destruct lower.
    + now rewrite (letter_lookup _ 97%N) by (reflexivity || assumption).
    + now rewrite (letter_lookup _ 65%N) by (reflexivity || assumption).
  - intros ->. now destruct lower.
Qed.

Lemma alphabetical_wrap_witness :
  nth_error (lines_of (formatAlphabeticalList (text (repeat "x"%string 27)) true)) 26
    = Some (js "a. x").
Proof.
  destruct (alphabetical_wrap true (text (repeat "x"%string 27)) 26 (js "x")
              eq_refl eq_refl) as (H1 & _ & H3).
  rewrite (H3 eq_refl) in H1. exact H1.
Defined.

(** ** Markers and line terminators *)

(** The examples of the specification for the replacement of a marker. *)
Example checkbox_replaces_bullet :
  formatCheckboxList (js "* old item") = js "- [ ] old item".
Proof. reflexivity. Qed.

Example alphabetical_replaces_mixed :
  formatAlphabeticalList (text ["1. First"; "- Second"; "iii. Third"]%string) true
    = text ["a. First"; "b. Second"; "c. Third"]%string.
Proof. reflexivity. Qed.

(** A single letter of the roman numerals is a marker of the alphabetical
    form, the first of the forms that takes it. *)
Example single_roman_letter_is_alphabetical :
  detect_bullet (js "i. item") = None
  /\ detect_numeric (js "i. item") = None
  /\ detect_alpha (js "i. item") = Some (js "item")
  /\ formatBulletList (js "i. item") = js "- item".
Proof. repeat split. Qed.

(** [formatCheckboxList] is not idempotent: the rest of its own marker is
    content to the detector. *)
Example checkbox_not_idempotent :
  formatCheckboxList (formatCheckboxList (js "item")) = js "- [ ] [ ] item"
  /\ formatCheckboxList (formatCheckboxList (js "item"))
     <> formatCheckboxList (js "item").
Proof. split; [reflexivity|discriminate]. Qed.

(** C1.  A non-blank line that begins with a marker of a recognized form
    should have the marker discarded and one new marker put in its place.
    The line "* old item" does, under [formatCheckboxList]; the same line
    ending in a carriage return, as the lines of a text with CR LF line
    ends do, keeps its marker behind the new one. *)
Theorem marker_kept_before_CR :
  formatCheckboxList (js "* old item") = js "- [ ] old item"
  /\ formatCheckboxList (js "* old item" ++ [CR])
     = js "- [ ] * old item" ++ [CR].
Proof. split; reflexivity. Qed.

(** C6.  [formatBulletList] applied twice should give what it gives applied
    once.  On the two-line text "one", CR LF, "two" the second application
    doubles the marker of the line that ends in the carriage return. *)
Theorem bullet_twice_CRLF :
  let t := js "one" ++ [CR; LF] ++ js "two" in
  formatBulletList t = js "- one" ++ [CR; LF] ++ js "- two"
  /\ formatBulletList (formatBulletList t)
     = js "- - one" ++ [CR; LF] ++ js "- two"
  /\ formatBulletList (formatBulletList t) <> formatBulletList t.
Proof. cbv zeta. split; [reflexivity|]. split; [reflexivity|discriminate]. Qed.

(** C10.  [formatBulletList] should leave the output of
    [formatCheckboxList] as it is, the "- " of the checkbox marker being
    taken for the old marker.  On the text "one", CR LF, "two" it puts a
    second marker before the checkbox of the line that ends in the carriage
    return. *)
Theorem bullet_after_checkbox_CRLF :
  let t := js "one" ++ [CR; LF] ++ js "two" in
  formatCheckboxList t = js "- [ ] one" ++ [CR; LF] ++ js "- [ ] two"
  /\ formatBulletList (formatCheckboxList t)
     = js "- - [ ] one" ++ [CR; LF] ++ js "- [ ] two"
  /\ formatBulletList (formatCheckboxList t) <> formatCheckboxList t.
Proof. cbv zeta. split; [reflexivity|]. split; [reflexivity|discriminate]. Qed.

(** * Further properties of the formatter *)

(** ** The line processor without the pattern *)

(** [processLine] returns a blank line as it is; of any other line it
    keeps the indentation, puts the new prefix, and then the residual
    content where one of the four forms is detected at the start of the
    content, the whole content where none is. *)
Theorem processLine_detect (line newPrefix : jsstring) :
  processLine line newPrefix =
    if is_blank line then line
    else leading_ws line ++ newPrefix ++
           match detect (content_of line) with
           | Some r => r
           | None => content_of line
           end.
Proof.
  destruct (is_blank line) eqn:B.
  - now apply processLine_blank.
  - rewrite processLine_nonblank by assumption.
    destruct (nonblank_content line B) as (c & s & -> & Hc).
    now rewrite residual_detect.
Qed.

Lemma after_marker_parts (s r : jsstring) :
  after_marker s = Some r ->
  exists ws, ws <> [] /\ forallb is_space ws = true /\ s = ws ++ r
             /\ trimmed_start r /\ no_line_terminator r.
Proof.
  intros H. assert (T := after_marker_trimmed _ _ H).
  destruct s as [|d s]; simpl in H; [discriminate|].
  destruct (is_space d) eqn:Hd; [|discriminate].
  destruct (forallb is_dot (drop_while is_space s)) eqn:F; [|discriminate].
  injection H as <-.
  exists (d :: take_while is_space s). repeat split; auto.
  - discriminate.
  - simpl. now rewrite Hd, take_while_all.
  - simpl. now rewrite take_drop_while.
  - apply Forall_forall. intros c Hc. rewrite forallb_forall in F.
    specialize (F c Hc). unfold is_dot in F.
    now destruct (is_line_terminator c).
Qed.

Lemma is_period_eq (p : code) : is_period p = true -> p = 46%N.
Proof. intros H. apply in_set_In in H. destruct H as [<-|[]]. reflexivity. Qed.

Lemma after_period_parts (s r : jsstring) :
  after_period s = Some r ->
  exists ws, ws <> [] /\ forallb is_space ws = true /\ s = js "." ++ ws ++ r
             /\ trimmed_start r /\ no_line_terminator r.
Proof.
  destruct s as [|p s]; simpl; [discriminate|].
  destruct (is_period p) eqn:Hp; [|discriminate]. intros H.
  apply is_period_eq in Hp. subst p.
  destruct (after_marker_parts _ _ H) as (ws & H1 & H2 & -> & H4 & H5).
  exists ws. repeat split; auto.
Qed.

Lemma detect_of_parts (f : form) (content r : jsstring) :
  detect_of f content = Some r ->
  exists m ws,
    marker_form m /\ ws <> [] /\ forallb is_space ws = true
    /\ content = m ++ ws ++ r /\ trimmed_start r /\ no_line_terminator r.
Proof.
  destruct content as [|c s]; [now destruct f|].
  destruct f; cbn [detect_of detect_bullet detect_numeric detect_alpha detect_roman].
  - destruct (is_bullet c) eqn:Hc; [|discriminate]. intros H.
    destruct (after_marker_parts _ _ H) as (ws & H1 & H2 & -> & H4 & H5).
    exists [c], ws. repeat split; auto. now apply form_bullet.
  - destruct (is_digit c) eqn:Hc; [|discriminate]. intros H.
    destruct (after_period_parts _ _ H) as (ws & H1 & H2 & E & H4 & H5).
    exists ((c :: take_while is_digit s) ++ js "."), ws. repeat split; auto.
    + apply form_numeric; [discriminate|]. cbn [forallb]. now rewrite Hc, take_while_all.
    + rewrite <- app_assoc, <- E. simpl. now rewrite take_drop_while.
  - destruct (is_letter c) eqn:Hc; [|discriminate].
    destruct s as [|p s]; [discriminate|].
    destruct (is_dot_or_paren p) eqn:Hp; [|discriminate]. intros H.
    destruct (after_marker_parts _ _ H) as (ws & H1 & H2 & -> & H4 & H5).
    exists [c; p], ws. repeat split; auto. now apply form_alpha.
  - destruct (is_roman c) eqn:Hc; [|discriminate]. intros H.
    destruct (after_period_parts _ _ H) as (ws & H1 & H2 & E & H4 & H5).
    exists ((c :: take_while is_roman s) ++ js "."), ws. repeat split; auto.
    + apply form_roman; [discriminate|]. cbn [forallb]. now rewrite Hc, take_while_all.
    + rewrite <- app_assoc, <- E. simpl. now rewrite take_drop_while.
Qed.

Lemma detect_first_some (content : jsstring) :
  detect content =
    first_some (map (fun f => detect_of f content)
                  [Bullet_form; Numeric_form; Alpha_form; Roman_form]).
Proof.
  unfold detect. cbn [map first_some detect_of].
  destruct (detect_bullet content), (detect_numeric content),
    (detect_alpha content), (detect_roman content); reflexivity.
Qed.

Lemma first_some_In {A : Type} (l : list (option A)) (x : A) :
  first_some l = Some x -> In (Some x) l.
Proof.
  induction l as [|a l IH]; simpl; [discriminate|].
  destruct a; simpl; [intros [= ->]; auto|auto].
Qed.

(** What [processLine] takes away from a non-blank line is nothing, or a
    marker of one of the four forms with the whitespace after it; what is
    kept then neither begins with whitespace nor holds a line
    terminator. *)
Theorem processLine_removes_marker_only (line newPrefix : jsstring) :
  is_blank line = false ->
  exists old kept,
    line = leading_ws line ++ old ++ kept
    /\ processLine line newPrefix = leading_ws line ++ newPrefix ++ kept
    /\ (old = [] \/
        exists m ws,
          old = m ++ ws /\ marker_form m
          /\ ws <> [] /\ forallb is_space ws = true
          /\ trimmed_start kept /\ no_line_terminator kept).
Proof.
  intros B. rewrite processLine_detect, B.
  destruct (detect (content_of line)) as [r|] eqn:D.
  - rewrite detect_first_some in D. apply first_some_In in D.
    apply in_map_iff in D. destruct D as (f & D & _).
    destruct (detect_of_parts _ _ _ D) as (m & ws & H1 & H2 & H3 & E & H5 & H6).
    exists (m ++ ws), r. rewrite <- app_assoc, <- E.
    split; [apply line_indent_content|]. split; [reflexivity|].
    right. exists m, ws. repeat split; auto.
  - exists [], (content_of line).
    split; [apply line_indent_content|]. auto.
Qed.

Lemma processLine_removes_marker_only_witness :
  exists old kept,
    js "  iv.   fourth" = js "  " ++ old ++ kept
    /\ processLine (js "  iv.   fourth") (js "4. ") = js "  " ++ js "4. " ++ kept
    /\ (old = [] \/
        exists m ws,
          old = m ++ ws /\ marker_form m
          /\ ws <> [] /\ forallb is_space ws = true
          /\ trimmed_start kept /\ no_line_terminator kept).
Proof.
  exact (processLine_removes_marker_only (js "  iv.   fourth") (js "4. ") eq_refl).
Defined.

Lemma marker_replaced_witness :
  nth_error (lines_of (applyStyle numbered (text ["- a"; "  iv.  x"]%string))) 1
    = Some (js "  " ++ js "2. " ++ js "x").
Proof.
  refine (marker_replaced numbered (text ["- a"; "  iv.  x"]%string) 1
            (js "  ") (js "iv" ++ js ".") (js "  ") (js "x")
            eq_refl eq_refl _ _ eq_refl eq_refl _).
  - apply form_roman; [discriminate|reflexivity].
  - discriminate.
  - repeat constructor.
Defined.

(** ** The order of the alternatives *)

Lemma alt_of_run (f : form) (k : mstate -> option match_array) c s :
  is_space c = false -> tail_like k ->
  group2 (run (alt_of f) (MState 0 (c :: s) []) k) =
    option_map Some (detect_of f (c :: s)).
Proof.
  destruct f; cbn [alt_of detect_of];
    auto using alt_bullet_run, alt_numeric_run, alt_alpha_run, alt_roman_run.
Qed.

Lemma or_else_None_r {A : Type} (a : option A) : or_else a None = a.
Proof. now destruct a. Qed.

Lemma alts_run (k : mstate -> option match_array) c s (f : form) (fs : list form) :
  is_space c = false -> tail_like k ->
  group2 (run (alts f fs) (MState 0 (c :: s) []) k) =
    option_map Some (first_some (map (fun g => detect_of g (c :: s)) (f :: fs))).
Proof.
  intros Hc T. revert f. induction fs as [|g gs IH]; intros f.
  - cbn [alts map first_some]. rewrite or_else_None_r. now apply alt_of_run.
  - cbn [alts]. rewrite run_Alt, group2_or_else, alt_of_run, IH by assumption.
    cbn [map first_some]. now destruct (detect_of f (c :: s)).
Qed.

Lemma prefix_with_detect (f : form) (fs : list form) (c : code) (s : jsstring) :
  is_space c = false ->
  group2 (str_match (c :: s) (prefix_regex_with f fs)) =
    option_map Some (first_some (map (fun g => detect_of g (c :: s)) (f :: fs))).
Proof.
  intros Hc. unfold prefix_regex_with. rewrite str_match_bol. unfold exec_at.
  cbn [skipn]. rewrite run_Seq, run_Bol. cbn [Nat.eqb]. rewrite run_Seq, run_Grp.
  match goal with |- group2 (run _ _ ?k) = _ => set (K := k) end.
  assert (T : tail_like K).
  { intros st. subst K. cbv beta. rewrite tail_run. cbn [rest].
    destruct (forallb is_dot (rest st)); reflexivity. }
  now apply alts_run.
Qed.

(** Two forms that both detect a marker leave the same residual content. *)
Lemma detect_of_agree (f g : form) (x r r' : jsstring) :
  detect_of f x = Some r -> detect_of g x = Some r' -> r = r'.
Proof.
  destruct x as [|c s]; [destruct f; discriminate|].
  assert (Hdb := digit_not_bullet c). assert (Hlb := letter_not_bullet c).
  assert (Hld := letter_not_digit c). assert (Hrl := roman_is_letter c).
  assert (AR : detect_alpha (c :: s) = Some r -> detect_roman (c :: s) = Some r'
               -> r = r').
  { cbn [detect_alpha detect_roman].
    destruct (is_letter c); [|discriminate]. destruct (is_roman c); [|discriminate].
    destruct s as [|p s]; [discriminate|].
    destruct (is_dot_or_paren p) eqn:Hp; [|discriminate].
    cbn [drop_while]. destruct (is_roman p) eqn:Hr.
    - rewrite (roman_not_dot_or_paren _ Hr) in Hp. discriminate.
    - cbn [after_period]. destruct (is_period p); [|discriminate]. congruence. }
  assert (AR' : detect_alpha (c :: s) = Some r' -> detect_roman (c :: s) = Some r
                -> r = r').
  { clear AR. cbn [detect_alpha detect_roman].
    destruct (is_letter c); [|discriminate]. destruct (is_roman c); [|discriminate].
    destruct s as [|p s]; [discriminate|].
    destruct (is_dot_or_paren p) eqn:Hp; [|discriminate].
    cbn [drop_while]. destruct (is_roman p) eqn:Hr.
    - rewrite (roman_not_dot_or_paren _ Hr) in Hp. discriminate.
    - cbn [after_period]. destruct (is_period p); [|discriminate]. congruence. }
  destruct f, g; cbn [detect_of]; auto; try congruence; clear AR AR';
    cbn [detect_bullet detect_numeric detect_alpha detect_roman];
    destruct (is_bullet c), (is_digit c), (is_letter c), (is_roman c);
    try discriminate;
    try (specialize (Hdb eq_refl)); try (specialize (Hlb eq_refl));
    try (specialize (Hld eq_refl)); try (specialize (Hrl eq_refl));
    discriminate.
Qed.

Lemma first_some_agree {A : Type} (l : list (option A)) (r : A) :
  (forall y, In (Some y) l -> y = r) -> In (Some r) l -> first_some l = Some r.
Proof.
  induction l as [|a l IH]; simpl; [tauto|].
  intros H Hin. destruct a as [y|]; simpl.
  - f_equal. apply H. auto.
  - apply IH; [auto|]. destruct Hin as [E|Hin]; [discriminate|assumption].
Qed.

Lemma first_some_none {A : Type} (l : list (option A)) :
  (forall a, In a l -> a = None) -> first_some l = None.
Proof.
  induction l as [|a l IH]; simpl; auto.
  intros H. rewrite (H a) by auto. simpl. auto.
Qed.

Lemma has_all_forms_In (l : list form) (g : form) :
  has_all_forms l = true -> In g l.
Proof.
  unfold has_all_forms. rewrite forallb_forall. intros H.
  assert (Hg : In g [Bullet_form; Numeric_form; Alpha_form; Roman_form])
    by (destruct g; simpl; auto).
  apply H in Hg. apply existsb_exists in Hg. destruct Hg as (x & Hx & E).
  destruct g, x; try discriminate; assumption.
Qed.

Lemma first_some_forms (x : jsstring) (l : list form) :
  has_all_forms l = true ->
  first_some (map (fun g => detect_of g x) l) = detect x.
Proof.
  intros Hl. destruct (detect x) as [r|] eqn:D.
  - rewrite detect_first_some in D. apply first_some_In in D.
    apply in_map_iff in D. destruct D as (g0 & D & _).
    apply first_some_agree.
    + intros y Hy. apply in_map_iff in Hy. destruct Hy as (g & Hy & _).
      eapply detect_of_agree; eauto.
    + apply in_map_iff. exists g0. split; auto. now apply has_all_forms_In.
  - apply first_some_none. intros a Ha. apply in_map_iff in Ha.
    destruct Ha as (g & <- & _). unfold detect in D.
    destruct g; cbn [detect_of];
      destruct (detect_bullet x), (detect_numeric x), (detect_alpha x),
        (detect_roman x); cbn in D; congruence.
Qed.

(** The order in which the four alternatives of [PREFIX_REGEX] are written
    has no effect on what [processLine] gets from it: on a content that
    does not begin with whitespace, the pattern with its alternatives in
    any other order matches the same contents, with the same second
    group. *)
Theorem alternatives_order_irrelevant (f : form) (fs : list form)
    (c : code) (s : jsstring) :
  has_all_forms (f :: fs) = true ->
  is_space c = false ->
  PREFIX_REGEX = prefix_regex_with Bullet_form [Numeric_form; Alpha_form; Roman_form]
  /\ group2 (str_match (c :: s) (prefix_regex_with f fs)) =
       group2 (str_match (c :: s) PREFIX_REGEX).
Proof.
  intros Hl Hc. split; [reflexivity|].
  rewrite prefix_with_detect, prefix_detect by assumption.
  now rewrite first_some_forms.
Qed.

Lemma alternatives_order_irrelevant_witness :
  group2 (str_match (js "i. item")
            (prefix_regex_with Roman_form [Alpha_form; Numeric_form; Bullet_form]))
    = group2 (str_match (js "i. item") PREFIX_REGEX).
Proof.
  exact (proj2 (alternatives_order_irrelevant Roman_form
                  [Alpha_form; Numeric_form; Bullet_form] 105%N (js ". item")
                  eq_refl eq_refl)).
Defined.

(** ** Blank lines stay blank, other lines stay non-blank *)

Lemma processLine_marker_nonblank (st : style) (k : nat) (line : jsstring) :
  is_blank line = false -> is_blank (processLine line (marker st k)) = false.
Proof.
  intros B. rewrite processLine_nonblank by assumption.
  destruct (marker_head st k) as (c & r & -> & Hc).
  cbn [app]. apply is_blank_app_nonspace. now apply visible_not_space.
Qed.

Lemma mark_lines_blank_pattern (st : style) (k : nat) (ls : list jsstring) :
  map is_blank (mark_lines (marker st) k ls) = map is_blank ls.
Proof.
  revert k. induction ls as [|l ls IH]; intros k; [reflexivity|].
  cbn [mark_lines]. destruct (is_blank l) eqn:B; cbn [map].
  - now rewrite B, IH.
  - now rewrite processLine_marker_nonblank, B, IH.
Qed.

Lemma nonblank_before_pattern (l1 l2 : list jsstring) (i : nat) :
  map is_blank l1 = map is_blank l2 ->
  nonblank_before l1 i = nonblank_before l2 i.
Proof.
  unfold nonblank_before. revert l2 i.
  induction l1 as [|a l1 IH]; intros [|b l2] i; try discriminate.
  - reflexivity.
  - cbn [map]. intros [= E1 E2]. destruct i as [|i]; [reflexivity|].
    cbn [firstn filter]. rewrite E1. destruct (negb (is_blank b)); cbn [length];
      now rewrite (IH l2 i E2).
Qed.

(** In every style, the output has its blank lines where the input has
    them, and nowhere else. *)
Theorem blank_pattern_preserved (st : style) (t : jsstring) :
  map is_blank (lines_of (applyStyle st t)) = map is_blank (lines_of t).
Proof. rewrite lines_of_applyStyle. apply mark_lines_blank_pattern. Qed.

(** ** A text of whitespace *)

(** In every style, a text made of whitespace only, line separators
    included, is returned as it is. *)
Theorem whitespace_text_unchanged (st : style) (t : jsstring) :
  all_whitespace t -> applyStyle st t = t.
Proof.
  intros H. rewrite applyStyle_mark_lines.
  assert (E : forall k ls, Forall all_whitespace ls ->
                           mark_lines (marker st) k ls = ls).
  { intros k ls Hls. revert k. induction Hls as [|l ls Hl _ IH]; intros k.
    - reflexivity.
    - cbn [mark_lines]. apply is_blank_all_whitespace in Hl.
      now rewrite Hl, IH. }
  rewrite E; [apply join_split|].
  apply Forall_forall. intros l Hl. apply Forall_forall. intros c Hc.
  unfold all_whitespace in H. rewrite Forall_forall in H.
  apply H. eapply split_In; eauto.
Qed.

Lemma whitespace_text_unchanged_witness :
  applyStyle numbered (js "  " ++ [LF; CR; LF] ++ js " ")
    = js "  " ++ [LF; CR; LF] ++ js " ".
Proof.
  apply whitespace_text_unchanged. repeat constructor.
Defined.

(** ** Formatting what another style has formatted *)

Lemma uint_codes_digits (u : Decimal.uint) :
  forallb is_digit (uint_codes u) = true.
Proof. induction u; simpl; auto. Qed.

Lemma roman_tables_forms (lower : bool) :
  Forall (fun n => n <> [] /\ forallb is_roman n = true)
    (if lower then ROMAN_NUMERALS_LOWER else ROMAN_NUMERALS_UPPER).
Proof.
  destruct lower; repeat constructor; discriminate.
Qed.

Lemma is_letter_bounds (c : code) :
  (97 <= c <= 122)%N \/ (65 <= c <= 90)%N -> is_letter c = true.
Proof.
  intros H. unfold is_letter, in_range.
  change (charCodeAt (js "a") 0) with 97%N.
  change (charCodeAt (js "z") 0) with 122%N.
  change (charCodeAt (js "A") 0) with 65%N.
  change (charCodeAt (js "Z") 0) with 90%N.
  apply orb_true_iff.
  destruct H as [H|H]; [left|right]; apply andb_true_iff;
    split; apply N.leb_le; lia.
Qed.

(** The marker of every style but the checkbox style is a marker of one of
    the four forms followed by one space. *)
Lemma marker_is_form (st : style) (k : nat) :
  st <> checkbox ->
  exists m, marker_form m /\ marker st k = m ++ [32%N].
Proof.
  intros Hst.
  assert (H26 : k mod 26 < 26) by (apply Nat.mod_upper_bound; discriminate).
  destruct st; cbn [marker]; try congruence.
  - exists [45%N]. split; [now apply form_bullet|reflexivity].
  - exists (toString (k + 1) ++ js "."). split.
    + apply form_numeric; [apply toString_not_nil|apply uint_codes_digits].
    + now rewrite <- app_assoc.
  - eexists [_; 46%N]. split; [|reflexivity]. apply form_alpha; [|reflexivity].
    rewrite (letter_lookup _ 97%N) by (reflexivity || assumption).
    apply is_letter_bounds. lia.
  - eexists [_; 46%N]. split; [|reflexivity]. apply form_alpha; [|reflexivity].
    rewrite (letter_lookup _ 65%N) by (reflexivity || assumption).
    apply is_letter_bounds. lia.
  - assert (L := roman_lookup true k). cbv zeta in L.
    apply nth_error_In in L.
    assert (F := roman_tables_forms true). rewrite Forall_forall in F.
    destruct (F _ L) as [F1 F2].
    exists (toLowerCase (roman_numeral (k mod 20 + 1)) ++ js "."). split.
    + now apply form_roman.
    + now rewrite <- app_assoc.
  - assert (L := roman_lookup false k). cbv zeta in L.
    apply nth_error_In in L.
    assert (F := roman_tables_forms false). rewrite Forall_forall in F.
    destruct (F _ L) as [F1 F2].
    exists (roman_numeral (k mod 20 + 1) ++ js "."). split.
    + now apply form_roman.
    + now rewrite <- app_assoc.
Qed.

Lemma residual_no_line_terminator (line : jsstring) :
  no_line_terminator line -> no_line_terminator (residual (content_of line)).
Proof.
  intros Hl. unfold no_line_terminator in *.
  rewrite (line_indent_content line) in Hl.
  apply Forall_app in Hl. destruct Hl as [_ Hl].
  destruct (residual_suffix (content_of line)) as [old Ho].
  rewrite Ho in Hl. apply Forall_app in Hl. tauto.
Qed.

Lemma residual_content_trimmed (line : jsstring) :
  is_blank line = false -> trimmed_start (residual (content_of line)).
Proof.
  intros B. destruct (nonblank_content line B) as (c & s & -> & Hc).
  now apply residual_trimmed.
Qed.

(** A line that has the marker of a style other than the checkbox style
    is processed as the line it was made from. *)
Lemma processLine_restyle (st : style) (k : nat) (line p : jsstring) :
  st <> checkbox ->
  is_blank line = false -> no_line_terminator line ->
  processLine (processLine line (marker st k)) p = processLine line p.
Proof.
  intros Hst B Hl. rewrite !(processLine_nonblank line) by assumption.
  destruct (marker_is_form st k Hst) as (m & Hm & ->).
  rewrite <- app_assoc.
  apply processLine_replaces; auto.
  - apply take_while_all.
  - discriminate.
  - now apply residual_content_trimmed.
  - now apply residual_no_line_terminator.
Qed.

Lemma mark_lines_restyle (st : style) (mk : nat -> jsstring) (k1 k2 : nat)
    (ls : list jsstring) :
  st <> checkbox ->
  Forall no_line_terminator ls ->
  mark_lines mk k2 (mark_lines (marker st) k1 ls) = mark_lines mk k2 ls.
Proof.
  intros Hst H. revert k1 k2.
  induction H as [|l ls Hl _ IH]; intros k1 k2; [reflexivity|].
  cbn [mark_lines]. destruct (is_blank l) eqn:B; cbn [mark_lines].
  - now rewrite B, IH.
  - rewrite processLine_marker_nonblank, processLine_restyle, IH by assumption.
    reflexivity.
Qed.

(** On a text whose only line terminators are its line separators, a
    style applied to the output of another style, the checkbox style apart,
    gives what it gives on the text itself: markers do not pile up, and
    each of these styles is idempotent. *)
Theorem restyle (st1 st2 : style) (t : jsstring) :
  st1 <> checkbox ->
  LF_only t ->
  applyStyle st2 (applyStyle st1 t) = applyStyle st2 t.
Proof.
  intros Hst Ht.
  rewrite (applyStyle_mark_lines st2 (applyStyle st1 t)), lines_of_applyStyle.
  rewrite mark_lines_restyle; auto using lines_no_line_terminator.
  now rewrite <- applyStyle_mark_lines.
Qed.

Lemma restyle_witness :
  applyStyle roman (applyStyle numbered (text ["- a"; ""; "  b"]%string))
    = applyStyle roman (text ["- a"; ""; "  b"]%string).
Proof.
  apply restyle; [discriminate|].
  repeat (constructor; [vm_compute; intros; (reflexivity || discriminate)|]).
  constructor.
Defined.

(** A line that has the checkbox marker keeps the box when it is processed
    again: only the "- " of the marker is taken for an old marker. *)
Lemma processLine_after_checkbox (line p : jsstring) :
  is_blank line = false -> no_line_terminator line ->
  processLine (processLine line (js "- [ ] ")) p =
    leading_ws line ++ p ++ js "[ ] " ++ residual (content_of line).
Proof.
  intros B Hl. rewrite (processLine_nonblank line) by assumption.
  assert (Hr := residual_no_line_terminator line Hl).
  assert (Ht' : trimmed_start (js "[ ] " ++ residual (content_of line)))
    by reflexivity.
  assert (Hr' : no_line_terminator (js "[ ] " ++ residual (content_of line))).
  { unfold no_line_terminator. apply Forall_app. split; auto.
    repeat constructor. }
  assert (Hn : [32%N] <> []) by discriminate.
  exact (processLine_replaces _ [45%N] [32%N] _ p
           (take_while_all _ _) (form_bullet 45%N eq_refl) Hn eq_refl Ht' Hr').
Qed.

(** On a text whose only line terminators are its line separators, a
    style applied to the output of [formatCheckboxList] replaces the "- "
    of the checkbox marker and keeps the box: a non-blank line comes out
    as its indentation, the marker of its rank, "[ ] " and its residual
    content. *)
Theorem checkbox_box_survives (st : style) (t : jsstring) (i : nat)
    (line : jsstring) :
  LF_only t ->
  nth_error (lines_of t) i = Some line ->
  is_blank line = false ->
  nth_error (lines_of (applyStyle st (formatCheckboxList t))) i =
    Some (leading_ws line ++ marker st (nonblank_before (lines_of t) i)
            ++ js "[ ] " ++ residual (content_of line)).
Proof.
  intros Ht H B.
  assert (Hl := lines_no_line_terminator t Ht). rewrite Forall_forall in Hl.
  assert (Hin := nth_error_In _ _ H).
  change (formatCheckboxList t) with (applyStyle checkbox t).
  assert (H1 : nth_error (lines_of (applyStyle checkbox t)) i =
               Some (processLine line (marker checkbox 0))).
  { rewrite lines_of_applyStyle, (mark_lines_nth _ _ _ _ _ H), B. reflexivity. }
  rewrite lines_of_applyStyle, (mark_lines_nth _ _ _ _ _ H1).
  rewrite processLine_marker_nonblank by assumption.
  rewrite (nonblank_before_pattern _ (lines_of t))
    by apply blank_pattern_preserved.
  cbn [marker Nat.add]. now rewrite processLine_after_checkbox by auto.
Qed.

Lemma checkbox_box_survives_witness :
  nth_error (lines_of (applyStyle numbered
                         (formatCheckboxList (text ["* a"; ""; " b"]%string)))) 2
    = Some (js " 2. [ ] b").
Proof.
  refine (checkbox_box_survives numbered (text ["* a"; ""; " b"]%string) 2
            (js " b") _ eq_refl eq_refl).
  repeat (constructor; [vm_compute; intros; (reflexivity || discriminate)|]).
  constructor.
Defined.

(** ** No new line terminators *)

Lemma join_In (sep : jsstring) (ls : list jsstring) (c : code) :
  In c (join sep ls) -> In c sep \/ exists l, In l ls /\ In c l.
Proof.
  induction ls as [|l ls IH]; [intros []|].
  destruct ls as [|l' ls'].
  - simpl. intros H. right. exists l. auto.
  - rewrite join_cons by discriminate. rewrite !in_app_iff.
    intros [H|[H|H]]; auto.
    + right. exists l. simpl. auto.
    + destruct (IH H) as [H'|(x & Hx & Hc)]; auto.
      right. exists x. split; [right|]; assumption.
Qed.

Lemma mark_lines_In (st : style) (k : nat) (ls : list jsstring) (l : jsstring)
    (c : code) :
  In l (mark_lines (marker st) k ls) -> In c l ->
  printable c = true \/ exists l0, In l0 ls /\ In c l0.
Proof.
  revert k. induction ls as [|l0 ls IH]; intros k; [intros []|].
  cbn [mark_lines]. destruct (is_blank l0) eqn:B.
  - intros [<-|H] Hc.
    + right. exists l0. simpl. auto.
    + destruct (IH _ H Hc) as [|(x & Hx & Hx')]; auto.
      right. exists x. simpl. auto.
  - intros [<-|H] Hc.
    + rewrite processLine_nonblank in Hc by assumption.
      rewrite !in_app_iff in Hc. destruct Hc as [Hc|[Hc|Hc]].
      * right. exists l0. split; [simpl; auto|].
        rewrite (line_indent_content l0). apply in_or_app. auto.
      * left. assert (P := marker_printable st k).
        rewrite forallb_forall in P. auto.
      * right. exists l0. split; [simpl; auto|].
        rewrite (line_indent_content l0).
        destruct (residual_suffix (content_of l0)) as [old ->].
        apply in_or_app. right. apply in_or_app. auto.
    + destruct (IH _ H Hc) as [|(x & Hx & Hx')]; auto.
      right. exists x. simpl. auto.
Qed.

(** Every code unit of the output of a style is a printable ASCII
    character of a marker, a line separator, or a code unit of the input;
    so the output of a text whose only line terminators are its line
    separators is such a text again. *)
Theorem output_code_units (st : style) (t : jsstring) :
  (forall c, In c (applyStyle st t) ->
             printable c = true \/ c = LF \/ In c t)
  /\ (LF_only t -> LF_only (applyStyle st t)).
Proof.
  assert (A : forall c, In c (applyStyle st t) ->
                        printable c = true \/ c = LF \/ In c t).
  { intros c Hc. rewrite applyStyle_mark_lines in Hc.
    apply join_In in Hc. destruct Hc as [[<-|[]]|(l & Hl & Hc)]; auto.
    destruct (mark_lines_In _ _ _ _ _ Hl Hc) as [|(l0 & H0 & H1)]; auto.
    right. right. eapply split_In; eauto. }
  split; [exact A|].
  intros Ht. apply Forall_forall. intros c Hc T.
  destruct (A c Hc) as [P|[E|Hin]]; auto.
  - unfold printable in P. apply andb_true_iff in P. destruct P as [P1 P2].
    apply N.leb_le in P1, P2. unfold is_line_terminator in T. cbn in T.
    repeat (apply orb_true_iff in T; destruct T as [T|T]);
      try apply N.eqb_eq in T; try discriminate; lia.
  - unfold LF_only in Ht. rewrite Forall_forall in Ht. auto.
Qed.

Lemma output_code_units_witness :
  LF_only (applyStyle alphabetical (text ["x"; "y"]%string)).
Proof.
  apply (proj2 (output_code_units alphabetical (text ["x"; "y"]%string))).
  repeat (constructor; [vm_compute; intros; (reflexivity || discriminate)|]).
  constructor.
Defined.

(** ** When markers repeat *)

Lemma uint_codes_inj (u v : Decimal.uint) : uint_codes u = uint_codes v -> u = v.
Proof.
  revert v. induction u; destruct v; simpl; intros H;
    try discriminate; try reflexivity; injection H as H; f_equal; auto.
Qed.

Lemma toString_inj (n m : nat) : toString n = toString m -> n = m.
Proof.
  intros H. apply uint_codes_inj in H.
  now apply DecimalNat.Unsigned.to_uint_inj.
Qed.

Lemma roman_tables_NoDup (lower : bool) :
  NoDup (if lower then ROMAN_NUMERALS_LOWER else ROMAN_NUMERALS_UPPER).
Proof.
  destruct lower; repeat (constructor; [cbn; intuition discriminate|]);
    constructor.
Qed.

Lemma marker_eq_iff (st : style) (k k' : nat) :
  marker st k = marker st k' <-> same_marker_rank st k k'.
Proof.
  assert (H26 : k mod 26 < 26) by (apply Nat.mod_upper_bound; discriminate).
  assert (H26' : k' mod 26 < 26) by (apply Nat.mod_upper_bound; discriminate).
  assert (H20 : k mod 20 < 20) by (apply Nat.mod_upper_bound; discriminate).
  destruct st; cbn [marker same_marker_rank].
  - tauto.
  - split; [|now intros ->]. intros H. apply app_inv_tail in H.
    apply toString_inj in H. lia.
  - split; [|now intros ->].
    rewrite !(letter_lookup _ 97%N) by (reflexivity || assumption).
    intros H. apply (f_equal (fun l => hd 0%N l)) in H. cbn [hd app] in H.
    apply N.add_cancel_l in H. now apply Nat2N.inj in H.
  - split; [|now intros ->].
    rewrite !(letter_lookup _ 65%N) by (reflexivity || assumption).
    intros H. apply (f_equal (fun l => hd 0%N l)) in H. cbn [hd app] in H.
    apply N.add_cancel_l in H. now apply Nat2N.inj in H.
  - split; [|now intros ->]. intros H. apply app_inv_tail in H.
    assert (L : nth_error ROMAN_NUMERALS_LOWER (k mod 20) = Some (toLowerCase (roman_numeral (k mod 20 + 1))))
      by exact (roman_lookup true k).
    assert (L' : nth_error ROMAN_NUMERALS_LOWER (k' mod 20) = Some (toLowerCase (roman_numeral (k' mod 20 + 1))))
      by exact (roman_lookup true k').
    rewrite <- H in L'.
    apply (proj1 (NoDup_nth_error ROMAN_NUMERALS_LOWER) (roman_tables_NoDup true));
      [exact H20|congruence].
  - split; [|now intros ->]. intros H. apply app_inv_tail in H.
    assert (L : nth_error ROMAN_NUMERALS_UPPER (k mod 20) = Some (roman_numeral (k mod 20 + 1)))
      by exact (roman_lookup false k).
    assert (L' : nth_error ROMAN_NUMERALS_UPPER (k' mod 20) = Some (roman_numeral (k' mod 20 + 1)))
      by exact (roman_lookup false k').
    rewrite <- H in L'.
    apply (proj1 (NoDup_nth_error ROMAN_NUMERALS_UPPER) (roman_tables_NoDup false));
      [exact H20|congruence].
  - tauto.
Qed.

Lemma nonblank_before_S (a : jsstring) (ls : list jsstring) (i : nat) :
  nonblank_before (a :: ls) (S i) =
    (if is_blank a then 0 else 1) + nonblank_before ls i.
Proof. unfold nonblank_before. cbn [firstn filter]. now destruct (is_blank a). Qed.

Lemma nonblank_before_lt (ls : list jsstring) (i j : nat) (l : jsstring) :
  nth_error ls i = Some l -> is_blank l = false -> i < j ->
  nonblank_before ls i < nonblank_before ls j.
Proof.
  revert i j. induction ls as [|a ls IH]; intros i j; [now destruct i|].
  intros H B Hij. destruct j as [|j]; [lia|]. destruct i as [|i].
  - injection H as ->. rewrite nonblank_before_S, B.
    unfold nonblank_before at 1. simpl. lia.
  - rewrite !nonblank_before_S. simpl in H.
    assert (nonblank_before ls i < nonblank_before ls j) by (eapply IH; eauto; lia).
    lia.
Qed.

(** In every style, two non-blank lines get the same marker exactly when
    their ranks allow it: always in the bullet and checkbox styles, never
    in the numbered style, when the ranks differ by a multiple of 26 in
    the alphabetical styles and of 20 in the roman styles; and the rank
    grows from each non-blank line to the next. *)
Theorem markers_repeat (st : style) (t : jsstring) (i j : nat)
    (li lj : jsstring) :
  nth_error (lines_of t) i = Some li -> is_blank li = false ->
  nth_error (lines_of t) j = Some lj -> is_blank lj = false ->
  let ki := nonblank_before (lines_of t) i in
  let kj := nonblank_before (lines_of t) j in
  nth_error (lines_of (applyStyle st t)) i =
    Some (leading_ws li ++ marker st ki ++ residual (content_of li))
  /\ nth_error (lines_of (applyStyle st t)) j =
       Some (leading_ws lj ++ marker st kj ++ residual (content_of lj))
  /\ (marker st ki = marker st kj <-> same_marker_rank st ki kj)
  /\ (i < j -> ki < kj).
Proof.
  intros Hi Bi Hj Bj ki kj. repeat split.
  - rewrite (applyStyle_nth _ _ _ _ Hi). now rewrite Bi.
  - rewrite (applyStyle_nth _ _ _ _ Hj). now rewrite Bj.
  - apply marker_eq_iff.
  - apply marker_eq_iff.
  - intros Hij. eapply nonblank_before_lt; eauto.
Qed.

Lemma markers_repeat_witness :
  let t := text ["a"; ""; "b"]%string in
  nth_error (lines_of (applyStyle numbered t)) 0 = Some (js "1. a")
  /\ nth_error (lines_of (applyStyle numbered t)) 2 = Some (js "2. b")
  /\ (js "1. " = js "2. " <-> 0 = 1)
  /\ (0 < 2 -> 0 < 1).
Proof.
  exact (markers_repeat numbered (text ["a"; ""; "b"]%string) 0 2
           (js "a") (js "b") eq_refl eq_refl eq_refl eq_refl).
Defined.

(** ** A text in two parts *)

Lemma split_app_sep (sep : code) (a b : jsstring) :
  split sep (a ++ sep :: b) = split sep a ++ split sep b.
Proof.
  induction a as [|c a IH]; cbn [app split].
  - now rewrite N.eqb_refl.
  - rewrite IH. destruct (N.eqb_spec c sep); [reflexivity|].
    destruct (split sep a) as [|l ls] eqn:E; [now apply split_not_nil in E|].
    reflexivity.
Qed.

Lemma join_app (sep : jsstring) (l1 l2 : list jsstring) :
  l1 <> [] -> l2 <> [] ->
  join sep (l1 ++ l2) = join sep l1 ++ sep ++ join sep l2.
Proof.
  intros H1 H2. induction l1 as [|a l1 IH]; [congruence|].
  destruct l1 as [|b l1].
  - cbn [app]. now rewrite join_cons.
  - change ((a :: b :: l1) ++ l2) with (a :: ((b :: l1) ++ l2)).
    rewrite !join_cons by discriminate. rewrite IH by discriminate.
    now rewrite <- !app_assoc.
Qed.

Lemma mark_lines_app (mk : nat -> jsstring) (k : nat) (l1 l2 : list jsstring) :
  mark_lines mk k (l1 ++ l2) =
    mark_lines mk k l1
      ++ mark_lines mk (k + nonblank_before l1 (length l1)) l2.
Proof.
  revert k. induction l1 as [|a l1 IH]; intros k.
  - cbn. now rewrite Nat.add_0_r.
  - cbn [app mark_lines length]. rewrite nonblank_before_S.
    destruct (is_blank a); cbn [app]; rewrite IH.
    + reflexivity.
    + now rewrite Nat.add_succ_comm.
Qed.

Lemma mark_lines_not_nil (mk : nat -> jsstring) (k : nat) (ls : list jsstring) :
  ls <> [] -> mark_lines mk k ls <> [].
Proof.
  intros H E. apply (f_equal (@length _)) in E.
  rewrite mark_lines_length in E. destruct ls; [congruence|discriminate].
Qed.

Lemma mark_lines_shift (mk : nat -> jsstring) (n k : nat) (ls : list jsstring) :
  mark_lines mk (n + k) ls = mark_lines (fun j => mk (n + j)) k ls.
Proof.
  revert k. induction ls as [|l ls IH]; intros k; [reflexivity|].
  cbn [mark_lines]. destruct (is_blank l).
  - now rewrite IH.
  - now rewrite <- IH, Nat.add_succ_r.
Qed.

Lemma marker_shift (st : style) (n k : nat) :
  same_marker_rank st n 0 -> marker st (n + k) = marker st k.
Proof.
  intros H. apply marker_eq_iff. destruct st; cbn [same_marker_rank] in *; auto.
  - lia.
  - assert (H' : n mod 26 = 0) by exact H.
    now rewrite Nat.Div0.add_mod, H', Nat.add_0_l, Nat.Div0.mod_mod.
  - assert (H' : n mod 26 = 0) by exact H.
    now rewrite Nat.Div0.add_mod, H', Nat.add_0_l, Nat.Div0.mod_mod.
  - assert (H' : n mod 20 = 0) by exact H.
    now rewrite Nat.Div0.add_mod, H', Nat.add_0_l, Nat.Div0.mod_mod.
  - assert (H' : n mod 20 = 0) by exact H.
    now rewrite Nat.Div0.add_mod, H', Nat.add_0_l, Nat.Div0.mod_mod.
Qed.

(** The output for a text in two parts, one line separator between them,
    begins with the output for the first part and the separator: what
    follows a line has no effect on it.  The rest is the output for the
    second part when the non-blank lines of the first part leave the
    markers where they start: always in the bullet and checkbox styles, in
    the numbered style when the first part has no non-blank line, in the
    alphabetical and roman styles when their number is a multiple of 26
    and of 20. *)
Theorem applyStyle_two_parts (st : style) (t1 t2 : jsstring) :
  let n := nonblank_before (lines_of t1) (length (lines_of t1)) in
  exists rest,
    applyStyle st (t1 ++ LF :: t2) = applyStyle st t1 ++ LF :: rest
    /\ (same_marker_rank st n 0 -> rest = applyStyle st t2).
Proof.
  cbv zeta.
  exists (join [LF]
            (mark_lines (marker st)
               (nonblank_before (lines_of t1) (length (lines_of t1)))
               (lines_of t2))).
  split.
  - rewrite !applyStyle_mark_lines. unfold lines_of.
    rewrite split_app_sep, mark_lines_app.
    rewrite join_app by (apply mark_lines_not_nil, split_not_nil).
    reflexivity.
  - intros H. rewrite applyStyle_mark_lines. f_equal.
    rewrite <- (Nat.add_0_r (nonblank_before _ _)), mark_lines_shift.
    apply mark_lines_ext. intros j _. now apply marker_shift.
Qed.

Lemma applyStyle_two_parts_witness :
  exists rest,
    applyStyle roman (text (repeat "x"%string 20) ++ LF :: js "- y")
      = applyStyle roman (text (repeat "x"%string 20)) ++ LF :: rest
    /\ rest = applyStyle roman (js "- y").
Proof.
  destruct (applyStyle_two_parts roman (text (repeat "x"%string 20)) (js "- y"))
    as (rest & H1 & H2).
  exists rest. split; [exact H1|]. apply H2. reflexivity.
Defined.

(** ** The lower-case variants *)

Lemma marker_lower (k : nat) :
  marker alphabetical k = toLowerCase (marker alphabeticalUpper k)
  /\ marker roman k = toLowerCase (marker romanUpper k).
Proof.
  assert (H26 : k mod 26 < 26) by (apply Nat.mod_upper_bound; discriminate).
  split; cbn [marker].
  - rewrite (letter_lookup _ 97%N), (letter_lookup _ 65%N)
      by (reflexivity || assumption).
    unfold toLowerCase. cbn [app map].
    change (js ". ") with [46%N; 32%N]. cbn [map].
    change (in_range "A" "Z" 46%N) with false.
    change (in_range "A" "Z" 32%N) with false. cbv iota.
    replace (in_range "A" "Z" (65 + N.of_nat (k mod 26))%N) with true.
    + f_equal. lia.
    + symmetry. unfold in_range.
      change (charCodeAt (js "A") 0) with 65%N.
      change (charCodeAt (js "Z") 0) with 90%N.
      apply andb_true_iff. split; apply N.leb_le; lia.
  - unfold toLowerCase at 2. now rewrite map_app.
Qed.

(** [formatAlphabeticalList] and [formatRomanList] with [lower] set give,
    line by line, what they give without it, with the marker in lower
    case: indentation and residual content are the same, in their own
    case. *)
Theorem lower_changes_marker_case (t : jsstring) (i : nat) (line : jsstring) :
  nth_error (lines_of t) i = Some line ->
  is_blank line = false ->
  let W := leading_ws line in
  let R := residual (content_of line) in
  (exists m,
     nth_error (lines_of (formatAlphabeticalList t false)) i = Some (W ++ m ++ R)
     /\ nth_error (lines_of (formatAlphabeticalList t true)) i
        = Some (W ++ toLowerCase m ++ R))
  /\ (exists m,
        nth_error (lines_of (formatRomanList t false)) i = Some (W ++ m ++ R)
        /\ nth_error (lines_of (formatRomanList t true)) i
           = Some (W ++ toLowerCase m ++ R)).
Proof.
  intros H B W R.
  destruct (marker_lower (nonblank_before (lines_of t) i)) as [E1 E2].
  split.
  - exists (marker alphabeticalUpper (nonblank_before (lines_of t) i)).
    change (formatAlphabeticalList t false) with (applyStyle alphabeticalUpper t).
    change (formatAlphabeticalList t true) with (applyStyle alphabetical t).
    rewrite !(applyStyle_nth _ _ _ _ H), B, <- E1. auto.
  - exists (marker romanUpper (nonblank_before (lines_of t) i)).
    change (formatRomanList t false) with (applyStyle romanUpper t).
    change (formatRomanList t true) with (applyStyle roman t).
    rewrite !(applyStyle_nth _ _ _ _ H), B, <- E2. auto.
Qed.

Lemma lower_changes_marker_case_witness :
  (exists m,
     nth_error (lines_of (formatAlphabeticalList (text ["A"; " - Be"]%string) false)) 1
       = Some (js " " ++ m ++ js "Be")
     /\ nth_error (lines_of (formatAlphabeticalList (text ["A"; " - Be"]%string) true)) 1
        = Some (js " " ++ toLowerCase m ++ js "Be"))
  /\ (exists m,
        nth_error (lines_of (formatRomanList (text ["A"; " - Be"]%string) false)) 1
          = Some (js " " ++ m ++ js "Be")
        /\ nth_error (lines_of (formatRomanList (text ["A"; " - Be"]%string) true)) 1
           = Some (js " " ++ toLowerCase m ++ js "Be")).
Proof.
  exact (lower_changes_marker_case (text ["A"; " - Be"]%string) 1 (js " - Be")
           eq_refl eq_refl).
Defined.

(** * The caller *)

Lemma str_eqb_eq (a b : jsstring) : str_eqb a b = true <-> a = b.
Proof.
  revert b. induction a as [|x a IH]; intros [|y b]; simpl;
    try (split; (discriminate || reflexivity)).
  rewrite andb_true_iff, N.eqb_eq, IH. split.
  - intros [-> ->]. reflexivity.
  - intros [= -> ->]. auto.
Qed.

Lemma str_eqb_spec (a b : jsstring) : reflect (a = b) (str_eqb a b).
Proof. apply iff_reflect. symmetry. apply str_eqb_eq. Qed.

Lemma includes_In (a : list jsstring) (x : jsstring) :
  includes a x = true <-> In x a.
Proof.
  unfold includes. rewrite existsb_exists. split.
  - intros (y & Hy & E). apply str_eqb_eq in E. now subst.
  - intros H. exists x. split; auto. now apply str_eqb_eq.
Qed.

(** The command handles exactly the styles that [ALL_POSSIBLE_STYLES]
    names, which are the styles enabled by default: for each of them the
    selection is replaced by the output of the function of that style, and
    for any other identifier nothing is replaced. *)
Theorem applyListStyle_handled (selection style : jsstring) :
  map fst ALL_POSSIBLE_STYLES = enabledStyles DEFAULT_ADVANCED_LIST_SETTINGS
  /\ map fst ALL_POSSIBLE_STYLES =
       map style_id [bullet; numbered; alphabetical; alphabeticalUpper;
                     roman; romanUpper; checkbox]
  /\ (forall st, applyListStyle selection (style_id st)
                 = Some (applyStyle st selection))
  /\ (applyListStyle selection style = None
      <-> ~ In style (map fst ALL_POSSIBLE_STYLES)).
Proof.
  split; [reflexivity|]. split; [reflexivity|]. split.
  - intros st. now destruct st.
  - unfold applyListStyle. cbn [ALL_POSSIBLE_STYLES map fst In].
    repeat match goal with
      | |- context [str_eqb style ?x] => destruct (str_eqb_spec style x)
      end;
      (split; [try discriminate; intros _; intuition congruence
              |intros H; try reflexivity; exfalso; apply H; subst; tauto]).
Qed.

(** ** The toggles of the settings tab *)

Lemma NoDup_snoc {A : Type} (l : list A) (a : A) :
  NoDup l -> ~ In a l -> NoDup (l ++ [a]).
Proof.
  induction 1 as [|x l Hx Hl IH]; simpl; intros Ha.
  - repeat constructor. auto.
  - constructor.
    + rewrite in_app_iff. simpl. intuition congruence.
    + apply IH. tauto.
Qed.

Lemma filter_not_eqb_In (styleId x : jsstring) (l : list jsstring) :
  In x (filter (fun s => negb (str_eqb s styleId)) l) <-> x <> styleId /\ In x l.
Proof.
  rewrite filter_In, negb_true_iff.
  destruct (str_eqb_spec x styleId); intuition congruence.
Qed.

(** After a toggle is switched on, its style is enabled, once, after the
    styles that were enabled; after it is switched off, its style is not
    enabled any more; the other styles are enabled as before, and a list
    without repetition stays so. *)
Theorem onToggle_enabled (styleId : jsstring) (value : bool)
    (settings : AdvancedListSettings) :
  let after := enabledStyles (onToggle styleId value settings) in
  let before := enabledStyles settings in
  (forall x, In x after <->
             if value then x = styleId \/ In x before
             else x <> styleId /\ In x before)
  /\ (NoDup before -> NoDup after)
  /\ (value = true -> exists tail, after = before ++ tail).
Proof.
  cbv zeta. unfold onToggle. cbn [enabledStyles]. destruct value.
  - destruct (includes (enabledStyles settings) styleId) eqn:I; cbn [negb].
    + apply includes_In in I. split; [|split; auto].
      * intros x. intuition congruence.
      * intros _. exists []. now rewrite app_nil_r.
    + assert (N : ~ In styleId (enabledStyles settings)).
      { intros H. apply includes_In in H. congruence. }
      split; [|split].
      * intros x. rewrite in_app_iff. simpl. intuition congruence.
      * intros H. now apply NoDup_snoc.
      * intros _. now exists [styleId].
  - split; [|split].
    + intros x. apply filter_not_eqb_In.
    + apply NoDup_filter.
    + discriminate.
Qed.

(** After a toggle, the default style is what it was if that is still
    enabled; otherwise it is the first enabled style, or "bullet" when no
    style is enabled or the first one is the empty string.  So the default
    style is an enabled one unless it is that "bullet". *)
Theorem onToggle_default (styleId : jsstring) (value : bool)
    (settings : AdvancedListSettings) :
  let after := onToggle styleId value settings in
  (In (defaultStyle settings) (enabledStyles after) ->
   defaultStyle after = defaultStyle settings)
  /\ (~ In (defaultStyle settings) (enabledStyles after) ->
      defaultStyle after = or_default (nth_error (enabledStyles after) 0) (js "bullet"))
  /\ (In (defaultStyle after) (enabledStyles after)
      \/ (defaultStyle after = js "bullet"
          /\ (enabledStyles after = []
              \/ exists others, enabledStyles after = [] :: others))).
Proof.
  cbv zeta. unfold onToggle. cbn [enabledStyles defaultStyle].
  match goal with |- context [includes ?e (defaultStyle settings)] =>
    set (E := e) end.
  destruct (includes E (defaultStyle settings)) eqn:I; cbn [negb].
  - apply includes_In in I. split; [auto|]. split; [tauto|]. auto.
  - assert (N : ~ In (defaultStyle settings) E).
    { intros H. apply includes_In in H. congruence. }
    split; [tauto|]. split; [auto|].
    destruct E as [|[|c s] others]; cbn [nth_error or_default].
    + right. auto.
    + right. split; auto. right. now exists others.
    + left. simpl. auto.
Qed.

Lemma onToggle_enabled_witness :
  NoDup (enabledStyles
           (onToggle (js "roman") false DEFAULT_ADVANCED_LIST_SETTINGS)).
Proof.
  apply (proj1 (proj2 (onToggle_enabled (js "roman") false
                         DEFAULT_ADVANCED_LIST_SETTINGS))).
  repeat (constructor; [cbn; intuition discriminate|]). constructor.
Defined.

Lemma onToggle_default_witness :
  defaultStyle (onToggle (js "bullet") false DEFAULT_ADVANCED_LIST_SETTINGS)
    = js "numbered".
Proof.
  apply (proj1 (proj2 (onToggle_default (js "bullet") false
                         DEFAULT_ADVANCED_LIST_SETTINGS))).
  cbn. intuition discriminate.
Defined.

(** * Line contents, and the length limit *)

(** What [processLine] drops and what it keeps of the content of a
    non-blank line. *)
Lemma content_parts (line : jsstring) :
  is_blank line = false ->
  exists old kept,
    content_of line = old ++ kept
    /\ residual (content_of line) = kept
    /\ trimmed_start kept
    /\ (old = [] \/
        exists m ws,
          old = m ++ ws /\ marker_form m
          /\ ws <> [] /\ forallb is_space ws = true).
Proof.
  intros B. destruct (nonblank_content line B) as (c & s & E & Hc).
  rewrite E, residual_detect by assumption.
  destruct (detect (c :: s)) as [r|] eqn:D.
  - rewrite detect_first_some in D. apply first_some_In in D.
    apply in_map_iff in D. destruct D as (f & D & _).
    destruct (detect_of_parts _ _ _ D) as (m & ws & H1 & H2 & H3 & H4 & H5 & _).
    exists (m ++ ws), r. rewrite <- app_assoc.
    repeat split; auto. right. exists m, ws. auto.
  - exists [], (c :: s). repeat split; auto.
    unfold trimmed_start. simpl. now rewrite Hc.
Qed.

(** C5.  In every style, the output has as many lines as the input, in the
    same order.  The i-th output line is the i-th input line itself when
    that is blank.  Otherwise it is the i-th input line with one thing
    changed: after the leading whitespace, an old part, which is nothing
    or one marker of the four forms with the whitespace after it, gives
    way to the marker of the rank of the line; the leading whitespace
    before it and all that follows it are kept as they are. *)
Theorem line_count_preserved (st : style) (t : jsstring) :
  length (lines_of (applyStyle st t)) = length (lines_of t)
  /\ forall (i : nat) (line : jsstring),
       nth_error (lines_of t) i = Some line ->
       exists out,
         nth_error (lines_of (applyStyle st t)) i = Some out
         /\ (is_blank line = true -> out = line)
         /\ (is_blank line = false ->
             exists old kept,
               line = leading_ws line ++ old ++ kept
               /\ out = leading_ws line
                          ++ marker st (nonblank_before (lines_of t) i)
                          ++ kept
               /\ trimmed_start kept
               /\ (old = [] \/
                   exists m ws,
                     old = m ++ ws /\ marker_form m
                     /\ ws <> [] /\ forallb is_space ws = true)).
Proof.
  split.
  - now rewrite lines_of_applyStyle, mark_lines_length.
  - intros i line H. eexists. split; [apply (applyStyle_nth _ _ _ _ H)|].
    split; intros B; rewrite B; [reflexivity|].
    destruct (content_parts line B) as (old & kept & E & R & T & F).
    exists old, kept. rewrite R. repeat split; auto.
    rewrite <- E. apply line_indent_content.
Qed.

Lemma line_count_preserved_witness :
  exists out,
    nth_error (lines_of (applyStyle checkbox (text [" * a b"; ""]%string))) 0
      = Some out
    /\ (is_blank (js " * a b") = true -> out = js " * a b")
    /\ (is_blank (js " * a b") = false ->
        exists old kept,
          js " * a b" = js " " ++ old ++ kept
          /\ out = js " " ++ js "- [ ] " ++ kept
          /\ trimmed_start kept
          /\ (old = [] \/
              exists m ws,
                old = m ++ ws /\ marker_form m
                /\ ws <> [] /\ forallb is_space ws = true)).
Proof.
  exact (proj2 (line_count_preserved checkbox (text [" * a b"; ""]%string)) 0
           (js " * a b") eq_refl).
Defined.

(** ** Within the string length limit *)

Section LengthLimitFacts.

Variable max_length : nat.

Lemma make_fits (s : jsstring) :
  length s <= max_length -> make max_length s = Returns s.
Proof. intros H. unfold make, fits. now apply Nat.leb_le in H as ->. Qed.

Lemma make_too_long (s : jsstring) :
  max_length < length s -> make max_length s = Throws_RangeError.
Proof. intros H. unfold make, fits. now apply Nat.leb_gt in H as ->. Qed.

Lemma join_length_In (sep : jsstring) (ls : list jsstring) (l : jsstring) :
  In l ls -> length l <= length (join sep ls).
Proof.
  induction ls as [|a ls IH]; [intros []|].
  destruct ls as [|b ls].
  - intros [<-|[]]. simpl. lia.
  - rewrite join_cons by discriminate. rewrite !length_app.
    intros [<-|H]; [lia|]. specialize (IH H). lia.
Qed.

Lemma line_length (t l : jsstring) :
  In l (lines_of t) -> length l <= length t.
Proof.
  intros H. assert (K := join_length_In [LF] _ l H).
  unfold lines_of in K. now rewrite join_split in K.
Qed.

Lemma processLine_covers_prefix (line p : jsstring) :
  is_blank line = false -> length p <= length (processLine line p).
Proof.
  intros B. rewrite processLine_nonblank by assumption.
  rewrite !length_app. lia.
Qed.

(** With the limit, [processLine] makes the line that it makes without. *)
Lemma processLine_checked_make (line p : jsstring) :
  length line <= max_length ->
  processLine_checked max_length line p = make max_length (processLine line p).
Proof.
  intros H. unfold processLine_checked, processLine.
  destruct (is_blank line); [now rewrite make_fits|].
  destruct (str_match line INDENT_REGEX);
    destruct (str_match _ PREFIX_REGEX); reflexivity.
Qed.

(** A prefix is made, then the line with it: the first fails only where
    the second does. *)
Lemma prefix_then_line {S : Type} (line p : jsstring) (s : S) :
  length line <= max_length -> is_blank line = false ->
  and_then (make max_length p) (fun prefix =>
    and_then (processLine_checked max_length line prefix) (fun out =>
      Returns (out, s)))
  = and_then (make max_length (processLine line p)) (fun out => Returns (out, s)).
Proof.
  intros H B. destruct (Nat.leb_spec (length p) max_length) as [L|L].
  - rewrite (make_fits p L). cbn [and_then].
    now rewrite processLine_checked_make.
  - rewrite (make_too_long p L). cbn [and_then].
    rewrite make_too_long; [reflexivity|].
    assert (K := processLine_covers_prefix line p B). lia.
Qed.

Lemma map_checked_make {A : Type} (f : A -> jsstring)
    (fc : A -> outcome jsstring) (a : list A) :
  (forall x, In x a -> fc x = make max_length (f x)) ->
  map_checked fc a =
    if forallb (fits max_length) (map f a) then Returns (map f a) else Throws_RangeError.
Proof.
  induction a as [|x a IH]; intros H; [reflexivity|].
  cbn [map_checked map forallb]. rewrite (H x) by (simpl; auto).
  rewrite IH by (intros; apply H; simpl; auto). unfold make.
  destruct (fits max_length (f x)); [|reflexivity].
  cbn [and_then andb]. now destruct (forallb _ _).
Qed.

Lemma map_st_checked_make {S A : Type} (f : S -> A -> jsstring * S)
    (fc : S -> A -> outcome (jsstring * S)) (s : S) (a : list A) :
  (forall s x, In x a ->
     fc s x = and_then (make max_length (fst (f s x)))
                (fun out => Returns (out, snd (f s x)))) ->
  map_st_checked fc s a =
    if forallb (fits max_length) (map_st f s a) then Returns (map_st f s a)
    else Throws_RangeError.
Proof.
  revert s. induction a as [|x a IH]; intros s H; [reflexivity|].
  cbn [map_st_checked map_st]. rewrite (H s x) by (simpl; auto).
  destruct (f s x) as [y s'] eqn:E. cbn [fst snd]. unfold make.
  cbn [forallb].
  destruct (fits max_length y); [|reflexivity].
  cbn [and_then andb fst snd]. rewrite IH by (intros; apply H; simpl; auto).
  now destruct (forallb _ _).
Qed.

(** The lines are made, then the text: the first fails only where the
    second does. *)
Lemma lines_then_join (ls : list jsstring) :
  and_then (if forallb (fits max_length) ls then Returns ls else Throws_RangeError)
    (fun processedLines => make max_length (join [LF] processedLines))
  = make max_length (join [LF] ls).
Proof.
  destruct (forallb (fits max_length) ls) eqn:F; [reflexivity|]. cbn [and_then].
  symmetry. apply make_too_long.
  destruct (Nat.leb_spec (length (join [LF] ls)) max_length) as [L|L]; auto.
  assert (T : forallb (fits max_length) ls = true); [|congruence].
  apply forallb_forall. intros l Hl. apply Nat.leb_le.
  assert (K := join_length_In [LF] ls l Hl). lia.
Qed.

(** With the limit, a style function on a string makes the text that it
    makes without. *)
Lemma applyStyle_checked_make (st : style) (t : jsstring) :
  length t <= max_length ->
  applyStyle_checked max_length st t = make max_length (applyStyle st t).
Proof.
  intros Ht.
  assert (Hl : forall l, In l (split LF t) -> length l <= max_length).
  { intros l Hl. apply line_length in Hl. lia. }
  destruct st; cbn [applyStyle_checked applyStyle].
  - unfold formatBulletList_checked, formatBulletList. cbv zeta.
    rewrite (map_checked_make
               (fun line => if is_blank line then line
                            else processLine line (js "- "))).
    + apply lines_then_join.
    + intros l Hin. destruct (is_blank l); [now rewrite make_fits by auto|].
      now apply processLine_checked_make, Hl.
  - unfold formatNumberedList_checked, formatNumberedList. cbv zeta.
    rewrite (map_st_checked_make
               (fun counter line =>
                  if is_blank line then (line, counter)
                  else (processLine line (toString counter ++ js ". "),
                        S counter))).
    + apply lines_then_join.
    + intros s l Hin. destruct (is_blank l) eqn:B.
      * cbn [fst snd]. now rewrite make_fits by auto.
      * cbn [fst snd]. now apply prefix_then_line; auto.
  - unfold formatAlphabeticalList_checked, formatAlphabeticalList. cbv zeta.
    rewrite (map_st_checked_make
               (fun charCode line =>
                  if is_blank line then (line, charCode)
                  else
                    (processLine line (fromCharCode charCode ++ js ". "),
                     if negb true && (charCodeAt (js "Z") 0 <?
                          (if true && (charCodeAt (js "z") 0 <? charCode + 1)%N
                           then charCodeAt (js "a") 0 else (charCode + 1)%N))%N
                     then charCodeAt (js "A") 0
                     else if true && (charCodeAt (js "z") 0 <? charCode + 1)%N
                          then charCodeAt (js "a") 0 else (charCode + 1)%N))).
    + apply lines_then_join.
    + intros s l Hin. destruct (is_blank l) eqn:B.
      * cbn [fst snd]. now rewrite make_fits by auto.
      * cbn [fst snd]. now apply prefix_then_line; auto.
  - unfold formatAlphabeticalList_checked, formatAlphabeticalList. cbv zeta.
    rewrite (map_st_checked_make
               (fun charCode line =>
                  if is_blank line then (line, charCode)
                  else
                    (processLine line (fromCharCode charCode ++ js ". "),
                     if negb false && (charCodeAt (js "Z") 0 <?
                          (if false && (charCodeAt (js "z") 0 <? charCode + 1)%N
                           then charCodeAt (js "a") 0 else (charCode + 1)%N))%N
                     then charCodeAt (js "A") 0
                     else if false && (charCodeAt (js "z") 0 <? charCode + 1)%N
                          then charCodeAt (js "a") 0 else (charCode + 1)%N))).
    + apply lines_then_join.
    + intros s l Hin. destruct (is_blank l) eqn:B.
      * cbn [fst snd]. now rewrite make_fits by auto.
      * cbn [fst snd]. now apply prefix_then_line; auto.
  - unfold formatRomanList_checked, formatRomanList. cbv zeta.
    rewrite (map_st_checked_make
               (fun counter line =>
                  if is_blank line then (line, counter)
                  else
                    (processLine line
                       (subst (nth_error ROMAN_NUMERALS_LOWER
                                 (counter mod length ROMAN_NUMERALS_LOWER))
                          ++ js ". "),
                     S counter))).
    + apply lines_then_join.
    + intros s l Hin. destruct (is_blank l) eqn:B.
      * cbn [fst snd]. now rewrite make_fits by auto.
      * cbn [fst snd]. now apply prefix_then_line; auto.
  - unfold formatRomanList_checked, formatRomanList. cbv zeta.
    rewrite (map_st_checked_make
               (fun counter line =>
                  if is_blank line then (line, counter)
                  else
                    (processLine line
                       (subst (nth_error ROMAN_NUMERALS_UPPER
                                 (counter mod length ROMAN_NUMERALS_UPPER))
                          ++ js ". "),
                     S counter))).
    + apply lines_then_join.
    + intros s l Hin. destruct (is_blank l) eqn:B.
      * cbn [fst snd]. now rewrite make_fits by auto.
      * cbn [fst snd]. now apply prefix_then_line; auto.
  - unfold formatCheckboxList_checked, formatCheckboxList. cbv zeta.
    rewrite (map_checked_make
               (fun line => if is_blank line then line
                            else processLine line (js "- [ ] "))).
    + apply lines_then_join.
    + intros l Hin. destruct (is_blank l); [now rewrite make_fits by auto|].
      now apply processLine_checked_make, Hl.
Qed.

End LengthLimitFacts.

(** A line of number signs gets its marker and nothing is detected. *)
Lemma number_sign_line (n : nat) :
  0 < n -> formatBulletList (repeat 35%N n) = js "- " ++ repeat 35%N n.
Proof.
  intros Hn. destruct n as [|n]; [lia|]. cbn [repeat].
  change (formatBulletList (35%N :: repeat 35%N n))
    with (applyStyle bullet (35%N :: repeat 35%N n)).
  rewrite applyStyle_mark_lines. unfold lines_of.
  rewrite split_free.
  - cbn [mark_lines join].
    assert (B : is_blank (35%N :: repeat 35%N n) = false)
      by (apply (is_blank_app_nonspace []); reflexivity).
    rewrite B, processLine_nonblank by assumption.
    change (content_of (35%N :: repeat 35%N n)) with (35%N :: repeat 35%N n).
    change (leading_ws (35%N :: repeat 35%N n)) with (@nil code).
    rewrite residual_detect by reflexivity. reflexivity.
  - constructor; [discriminate|]. apply Forall_forall. intros c Hc.
    apply repeat_spec in Hc. subst c. discriminate.
Qed.



